(** * mcp-ipfs: a shallow embedding of the tool handlers and their helpers

    The server wraps the [w3] command-line client: every tool handler
    validates its argument bag with a zod schema, builds a command line,
    runs it as a subprocess and reshapes the output.  This file embeds

    - the string primitives the code relies on (over UTF-16 code units),
    - the zod schemas of [src/schemas.ts],
    - [runW3Command] and [parseNdJson] of [src/utils.ts],
    - the thirty-five handlers and the [toolHandlers] map of
      [src/tool_handlers.ts],
    - the tool-name derivation and the dispatcher of [src/index.ts],

    and proves the properties the specification states about them. *)

From Stdlib Require Import ZArith NArith QArith.QArith_base Ascii String List DecimalString.
From stdpp Require Import base list gmap.

Local Open Scope N_scope.
Local Open Scope list_scope.
Set Warnings "-register-all".

(** ** JavaScript strings

    A JavaScript string is a sequence of UTF-16 code units; [length],
    [substring], [split] and [trim] all work on code units, so the model is
    a list of them. *)

Abbreviation jsstring := (list N).

(** Literals of the source are ASCII; [str] turns a Rocq literal into its
    code units. *)
Definition str (s : string) : jsstring :=
  List.map N_of_ascii (list_ascii_of_string s).
Arguments str : simpl never.

(** The double quote and the newline, which Rocq literals cannot hold
    conveniently. *)
Definition dq : jsstring := [34].
Definition nl : jsstring := [10].

(** ECMAScript WhiteSpace and LineTerminator code points: what
    [String.prototype.trim] strips and what the regular expression class
    [\s] matches. *)
Definition is_whitespace (c : N) : bool :=
  (c =? 9) || (c =? 10) || (c =? 11) || (c =? 12) || (c =? 13) ||
  (c =? 32) || (c =? 160) || (c =? 5760) ||
  ((8192 <=? c) && (c <=? 8202)) ||
  (c =? 8232) || (c =? 8233) || (c =? 8239) || (c =? 8287) ||
  (c =? 12288) || (c =? 65279).

(** [s.trimStart()] *)
Fixpoint trimStart (s : jsstring) : jsstring :=
  match s with
  | [] => []
  | c :: r => if is_whitespace c then trimStart r else s
  end.

(** [s.trimEnd()] *)
Definition trimEnd (s : jsstring) : jsstring :=
  rev (trimStart (rev s)).

(** [s.trim()] *)
Definition trim (s : jsstring) : jsstring := trimEnd (trimStart s).

(** [s.split(sep)] for a separator of one code unit: the pieces between
    the separators, empty pieces included; the empty string gives one
    empty piece. *)
Fixpoint split_on (sep : N) (s : jsstring) : list jsstring :=
  match s with
  | [] => [[]]
  | c :: r =>
      if c =? sep then [] :: split_on sep r
      else match split_on sep r with
           | l :: ls => (c :: l) :: ls
           | [] => [[c]]
           end
  end.

(** [s.split(/\s+/)]: the pieces between maximal runs of white space.
    [in_run] tells that the previous code unit was white space, so that a
    run gives one cut. *)
Fixpoint split_ws_from (in_run : bool) (s : jsstring) : list jsstring :=
  match s with
  | [] => [[]]
  | c :: r =>
      if is_whitespace c then
        if in_run then split_ws_from true r else [] :: split_ws_from true r
      else match split_ws_from false r with
           | l :: ls => (c :: l) :: ls
           | [] => [[c]]
           end
  end.

Definition split_ws (s : jsstring) : list jsstring := split_ws_from false s.

(** [parts.join(sep)] *)
Fixpoint join (sep : jsstring) (parts : list jsstring) : jsstring :=
  match parts with
  | [] => []
  | [p] => p
  | p :: ps => p ++ sep ++ join sep ps
  end.

(** [s.startsWith(p)] *)
Fixpoint startsWith (p s : jsstring) : bool :=
  match p, s with
  | [], _ => true
  | _ :: _, [] => false
  | a :: p', b :: s' => (a =? b) && startsWith p' s'
  end.

(** [s.endsWith(p)] *)
Definition endsWith (p s : jsstring) : bool := startsWith (rev p) (rev s).

(** [s.includes(p)] *)
Fixpoint includes (p s : jsstring) : bool :=
  startsWith p s ||
  match s with
  | [] => false
  | _ :: s' => includes p s'
  end.

(** [s.substring(a, b)] for [a <= b], and [s.substring(a)]. *)
Definition substring (a b : nat) (s : jsstring) : jsstring :=
  firstn (b - a) (skipn a s).
Definition substring_from (a : nat) (s : jsstring) : jsstring := skipn a s.

(** [s.replace(pat, rep)] with a string pattern: the first occurrence only. *)
Fixpoint replace_first (pat rep s : jsstring) : jsstring :=
  if startsWith pat s then rep ++ skipn (length pat) s
  else match s with
       | [] => []
       | c :: s' => c :: replace_first pat rep s'
       end.

(** [s.replace(/([A-Z])/g, "_$1")]: an underscore before every ASCII
    capital. *)
Definition is_upper (c : N) : bool := (65 <=? c) && (c <=? 90).

Fixpoint underscore_capitals (s : jsstring) : jsstring :=
  match s with
  | [] => []
  | c :: r =>
      if is_upper c then 95 :: c :: underscore_capitals r
      else c :: underscore_capitals r
  end.

(** [s.toLowerCase()] on ASCII strings (the exported names it is applied to
    are identifiers of the source, all ASCII). *)
Definition toLowerCase (s : jsstring) : jsstring :=
  List.map (fun c => if is_upper c then c + 32 else c) s.

(** Truthiness of a string: the empty string is falsy. *)
Definition truthy_str (s : jsstring) : bool :=
  match s with [] => false | _ => true end.

(** Decimal rendering of a small non-negative integer, as a template
    literal renders an array index. *)
Definition nat_to_str (n : nat) : jsstring :=
  str (NilZero.string_of_uint (Nat.to_uint n)).

(** ** Values and errors *)

(** JavaScript values as far as the handlers see them: what [JSON.parse]
    yields, plus [undefined]. An object keeps its properties in insertion
    order, each key once. *)
Inductive value : Type :=
| VUndefined
| VNull
| VBool (b : bool)
| VNum (q : Q)
| VStr (s : jsstring)
| VArr (items : list value)
| VObj (props : list (jsstring * value)).

(** [o[k]]: the property, [undefined] when absent. *)
Fixpoint get_prop (k : jsstring) (props : list (jsstring * value)) : value :=
  match props with
  | [] => VUndefined
  | (k', v) :: rest => if decide (k = k') then v else get_prop k rest
  end.

Inductive error_class := ClsError | ClsSyntaxError.

(** An exception object: its class, [message], and the two extra
    properties the code reads or writes ([stderr] of a failed [exec],
    [inputLine] attached by [parseNdJson]). *)
Record js_error := mkError {
  err_class : error_class;
  err_message : jsstring;
  err_stderr : option jsstring;
  err_inputLine : option jsstring
}.

(** [new Error(msg)] *)
Definition new_Error (msg : jsstring) : js_error :=
  mkError ClsError msg None None.

(** ** What zod reports *)

Inductive path_elem := PKey (k : jsstring) | PIndex (i : nat).

Inductive issue_code :=
| invalid_type (expected received : jsstring)
| too_small_array (minimum : nat)
| too_small_number
| not_starting_with (prefix : jsstring)
| invalid_enum_value (options : list jsstring)
| invalid_literal (expected : jsstring).

Record zod_issue := mkIssue { issue_code_of : issue_code; issue_path : list path_elem }.

(** ** The JavaScript runtime and libraries the code calls

    [JSON.parse], [JSON.stringify], the rendering of a number in a template
    literal, the text of a [ZodError] and the process environment belong to
    the platform, not to the repository; the embedding takes them as an
    interface. *)
Class Runtime := {
  JSON_parse : jsstring -> js_error + value;
  JSON_stringify : value -> jsstring;
  number_toString : Q -> jsstring;
  zod_error_message : list zod_issue -> jsstring;
  env_W3_LOGIN_EMAIL : option jsstring
}.

(** ** Programs with subprocesses, logging and exceptions *)

Inductive log_level := LDebug | LInfo | LWarn | LError.

(** What [execPromise] settles to: the rejection error, or [stdout] and
    [stderr]. *)
Definition exec_result : Type := js_error + (jsstring * jsstring).

(** A handler is a tree: it returns, throws, writes a log line (message
    and the optional error object passed after it) or starts a subprocess
    and continues with what the subprocess settled to. *)
Inductive prog (A : Type) : Type :=
| Ret (a : A)
| Throw (e : js_error)
| Log (lvl : log_level) (msg : jsstring) (detail : option js_error) (k : prog A)
| Exec (cmd : jsstring) (k : exec_result -> prog A).

Arguments Ret {A} a.
Arguments Throw {A} e.
Arguments Log {A} lvl msg detail k.
Arguments Exec {A} cmd k.

Fixpoint bind {A B} (p : prog A) (f : A -> prog B) : prog B :=
  match p with
  | Ret a => f a
  | Throw e => Throw e
  | Log l m d k => Log l m d (bind k f)
  | Exec c k => Exec c (fun r => bind (k r) f)
  end.

(** [try { p } catch (e) { h e }] *)
Fixpoint try_catch {A} (p : prog A) (h : js_error -> prog A) : prog A :=
  match p with
  | Ret a => Ret a
  | Throw e => h e
  | Log l m d k => Log l m d (try_catch k h)
  | Exec c k => Exec c (fun r => try_catch (k r) h)
  end.

#[global] Instance prog_ret : MRet prog := fun A a => Ret a.
#[global] Instance prog_bind : MBind prog := fun A B f p => bind p f.

Definition log (lvl : log_level) (msg : jsstring) : prog unit :=
  Log lvl msg None (Ret tt).
Definition log_with (lvl : log_level) (msg : jsstring) (e : js_error) : prog unit :=
  Log lvl msg (Some e) (Ret tt).

(** *** Running a program against a shell

    The shell answers the [i]-th subprocess of a run, given its command
    line. A run gives the events in order and the result. *)
Inductive event :=
| EvLog (lvl : log_level) (msg : jsstring) (detail : option js_error)
| EvExec (cmd : jsstring).

Definition shell : Type := nat -> jsstring -> exec_result.

Fixpoint run_from {A} (sh : shell) (i : nat) (p : prog A) : list event * (js_error + A) :=
  match p with
  | Ret a => ([], inr a)
  | Throw e => ([], inl e)
  | Log l m d k =>
      let '(t, r) := run_from sh i k in (EvLog l m d :: t, r)
  | Exec c k =>
      let '(t, r) := run_from sh (S i) (k (sh i c)) in (EvExec c :: t, r)
  end.

Definition run {A} (sh : shell) (p : prog A) : list event * (js_error + A) :=
  run_from sh 0%nat p.

(** The command lines of the subprocesses of a trace, in order. *)
Fixpoint spawned (t : list event) : list jsstring :=
  match t with
  | [] => []
  | EvExec c :: t' => c :: spawned t'
  | EvLog _ _ _ :: t' => spawned t'
  end.

(** The log messages of a trace, in order. *)
Fixpoint logged (t : list event) : list jsstring :=
  match t with
  | [] => []
  | EvLog _ m _ :: t' => m :: logged t'
  | EvExec _ :: t' => logged t'
  end.

(** ** src/utils.ts *)

Section Utils.
Context `{Runtime}.

(** [runW3Command(command)] *)
Definition runW3Command (command : jsstring) : prog (jsstring * jsstring) :=
  let fullCommand := str "w3 " ++ command in
  Log LDebug (str "Executing: " ++ fullCommand) None
    (Exec fullCommand (fun settled =>
       match settled with
       | inr (stdout, stderr) =>
           _ ← (if truthy_str stderr
                then log LWarn (str "w3 command stderr: " ++ stderr)
                else Ret tt);
           _ ← log LDebug (str "w3 command stdout: " ++ substring 0 100 stdout ++ str "...");
           Ret (stdout, stderr)
       | inl error =>
           _ ← log_with LError
                 (str "Error executing w3 command '" ++ command ++ str "':") error;
           let errorMessage :=
             match err_stderr error with
             | Some se =>
                 if truthy_str se
                 then err_message error ++ nl ++ str "Stderr: " ++ se
                 else err_message error
             | None => err_message error
             end in
           Throw (new_Error (str "Failed to execute 'w3 " ++ command ++ str "': " ++ errorMessage))
       end)).

(** The [lines] of [parseNdJson]:
    [ndjson.trim().split("\n").filter((line) => line.trim() !== "")]. *)
Definition ndjson_lines (ndjson : jsstring) : list jsstring :=
  List.filter (fun line => truthy_str (trim line)) (split_on 10 (trim ndjson)).

(** The callback of [lines.map] in [parseNdJson]. *)
Definition parse_line (line : jsstring) (index : nat) : prog value :=
  match JSON_parse line with
  | inr v => Ret v
  | inl e =>
      let e' :=
        match err_class e with
        | ClsSyntaxError =>
            if includes (str "Unexpected token") (err_message e)
            then mkError (err_class e) (err_message e) (err_stderr e) (Some line)
            else e
        | ClsError => e
        end in
      _ ← log LError
            (str "Failed to parse NDJSON line #" ++ nat_to_str (index + 1) ++
             str ". Error: " ++ err_message e' ++
             str ". Line content: " ++ dq ++ substring 0 100 line ++
             (if (100 <? length line)%nat then str "..." else []) ++ dq);
      Throw e'
  end.

(** [lines.map(callback)] from index [index] on: the first exception ends
    the map. *)
Fixpoint map_lines (lines : list jsstring) (index : nat) : prog (list value) :=
  match lines with
  | [] => Ret []
  | line :: rest =>
      v ← parse_line line index;
      vs ← map_lines rest (S index);
      Ret (v :: vs)
  end.

(** [parseNdJson(ndjson)] *)
Definition parseNdJson (ndjson : jsstring) : prog (list value) :=
  let lines := ndjson_lines ndjson in
  try_catch (map_lines lines 0%nat) (fun e =>
    _ ← log LError
          (str "Failed to parse NDJSON output. Error: " ++ err_message e ++
           str ". Full NDJSON (start): " ++ substring 0 200 ndjson ++ str "...");
    Throw (new_Error
             (str "Failed to parse NDJSON output. Error: " ++ err_message e ++
              str ". Please check w3cli output format."))).

End Utils.

(** ** zod, as far as src/schemas.ts uses it

    A schema of output type [A] is its [safeParse]: from the path walked so
    far and a value, the issues found or the parsed data. As in zod, a
    wrong type is reported alone, the checks of one schema are all run, and
    the issues of the properties of an object and of the items of an array
    add up. *)

Definition ZodType (A : Type) : Type := list path_elem -> value -> list zod_issue + A.

(** zod's name for the type of a value, used in [invalid_type] issues. *)
Definition parsed_type (v : value) : jsstring :=
  match v with
  | VUndefined => str "undefined"
  | VNull => str "null"
  | VBool _ => str "boolean"
  | VNum _ => str "number"
  | VStr _ => str "string"
  | VArr _ => str "array"
  | VObj _ => str "object"
  end.

Definition wrong_type {A} (expected : jsstring) (path : list path_elem) (v : value)
  : list zod_issue + A :=
  inl [mkIssue (invalid_type expected (parsed_type v)) path].

(** [schema.safeParse(v)] *)
Definition safeParse {A} (schema : ZodType A) (v : value) : list zod_issue + A :=
  schema [] v.

(** [z.string()] *)
Definition z_string : ZodType jsstring := fun path v =>
  match v with
  | VStr s => inr s
  | _ => wrong_type (str "string") path v
  end.

(** [z.string().startsWith(prefix)] *)
Definition z_string_startsWith (prefix : jsstring) : ZodType jsstring := fun path v =>
  match v with
  | VStr s =>
      if startsWith prefix s then inr s
      else inl [mkIssue (not_starting_with prefix) path]
  | _ => wrong_type (str "string") path v
  end.

(** [z.boolean()] *)
Definition z_boolean : ZodType bool := fun path v =>
  match v with
  | VBool b => inr b
  | _ => wrong_type (str "boolean") path v
  end.

(** [Number.isInteger] and [> 0] on a number. *)
Definition is_integer (q : Q) : bool := (Qnum q mod Zpos (Qden q) =? 0)%Z.
Definition is_positive (q : Q) : bool := (0 <? Qnum q)%Z.

(** Truthiness of a number: zero is falsy. *)
Definition truthy_num (q : Q) : bool := negb (Qnum q =? 0)%Z.

(** [z.number().int().positive()]: both checks are run. *)
Definition z_number_int_positive : ZodType Q := fun path v =>
  match v with
  | VNum q =>
      match
        (if is_integer q then []
         else [mkIssue (invalid_type (str "integer") (str "float")) path]) ++
        (if is_positive q then [] else [mkIssue too_small_number path])
      with
      | [] => inr q
      | issues => inl issues
      end
  | _ => wrong_type (str "number") path v
  end.

(** [z.enum(options)] *)
Definition z_enum (options : list jsstring) : ZodType jsstring := fun path v =>
  match v with
  | VStr s =>
      if decide (s ∈ options) then inr s
      else inl [mkIssue (invalid_enum_value options) path]
  | _ => wrong_type (join (str " | ") (List.map (fun o => str "'" ++ o ++ str "'") options)) path v
  end.

(** [z.literal(expected)] for a string literal. *)
Definition z_literal (expected : jsstring) : ZodType unit := fun path v =>
  match v with
  | VStr s =>
      if decide (s = expected) then inr tt
      else inl [mkIssue (invalid_literal expected) path]
  | _ => inl [mkIssue (invalid_literal expected) path]
  end.

(** [schema.optional()] *)
Definition z_optional {A} (schema : ZodType A) : ZodType (option A) := fun path v =>
  match v with
  | VUndefined => inr None
  | _ => match schema path v with
         | inr a => inr (Some a)
         | inl issues => inl issues
         end
  end.

(** [z.boolean().optional().default(d)]: [undefined] is replaced by the
    default before the inner schema runs, so the data is always a boolean. *)
Definition z_boolean_optional_default (d : bool) : ZodType bool := fun path v =>
  let v' := match v with VUndefined => VBool d | _ => v end in
  match z_optional z_boolean path v' with
  | inr (Some b) => inr b
  | inr None => inr d
  | inl issues => inl issues
  end.

(** The items of an array, each under its index. *)
Fixpoint parse_items {A} (schema : ZodType A) (path : list path_elem) (i : nat)
    (items : list value) : list zod_issue + list A :=
  match items with
  | [] => inr []
  | v :: rest =>
      match schema (path ++ [PIndex i]) v, parse_items schema path (S i) rest with
      | inr a, inr l => inr (a :: l)
      | inl e1, inl e2 => inl (e1 ++ e2)
      | inl e, inr _ | inr _, inl e => inl e
      end
  end.

(** [z.array(schema).min(minimum)] *)
Definition z_array_min {A} (schema : ZodType A) (minimum : nat) : ZodType (list A) :=
  fun path v =>
  match v with
  | VArr items =>
      let short :=
        if (length items <? minimum)%nat
        then [mkIssue (too_small_array minimum) path] else [] in
      match short, parse_items schema path 0%nat items with
      | [], inr l => inr l
      | _, inr _ => inl short
      | _, inl e => inl (short ++ e)
      end
  | _ => wrong_type (str "array") path v
  end.

(** The shape of [z.object({...})]: the parsers of the properties under
    their keys; unknown keys are ignored (stripped). *)
Definition Shape (A : Type) : Type :=
  list path_elem -> list (jsstring * value) -> list zod_issue + A.

Definition no_props : Shape unit := fun _ _ => inr tt.

Definition prop {A} (key : jsstring) (schema : ZodType A) : Shape A :=
  fun path props => schema (path ++ [PKey key]) (get_prop key props).

Definition both {A B} (s1 : Shape A) (s2 : Shape B) : Shape (A * B) :=
  fun path props =>
  match s1 path props, s2 path props with
  | inr a, inr b => inr (a, b)
  | inl e1, inl e2 => inl (e1 ++ e2)
  | inl e, inr _ | inr _, inl e => inl e
  end.

Infix "&." := both (at level 61, left associativity).

(** [z.object(shape)] *)
Definition z_object {A} (shape : Shape A) : ZodType A := fun path v =>
  match v with
  | VObj props => shape path props
  | _ => wrong_type (str "object") path v
  end.

(** The order of strings by their code units, the default order of
    [Array.prototype.sort]. *)
Fixpoint code_units_leb (a b : jsstring) : bool :=
  match a, b with
  | [], _ => true
  | _ :: _, [] => false
  | x :: a', y :: b' => (x <? y) || ((x =? y) && code_units_leb a' b')
  end.

(** Entries sorted by key, in that order. *)
Fixpoint insert_by_name {A} (e : jsstring * A) (l : list (jsstring * A))
    : list (jsstring * A) :=
  match l with
  | [] => [e]
  | e' :: l' =>
      if code_units_leb (fst e) (fst e') then e :: l else e' :: insert_by_name e l'
  end.

Definition sort_by_name {A} (l : list (jsstring * A)) : list (jsstring * A) :=
  fold_right insert_by_name [] l.

(** ** src/schemas.ts

    [.describe(...)] only attaches a description and is left out. *)
Module Schemas.

Definition W3LoginArgsSchema : ZodType unit := z_object no_props.
Definition W3SpaceLsArgsSchema : ZodType unit := z_object no_props.
Definition W3SpaceUseArgsSchema : ZodType jsstring :=
  z_object (prop (str "spaceDid") (z_string_startsWith (str "did:key:"))).
Definition W3SpaceCreateArgsSchema : ZodType (option jsstring) :=
  z_object (prop (str "name") (z_optional z_string)).
Definition W3UpArgsSchema : ZodType (list jsstring * bool * bool) :=
  z_object (prop (str "paths") (z_array_min z_string 1) &.
            prop (str "noWrap") (z_boolean_optional_default false) &.
            prop (str "hidden") (z_boolean_optional_default false)).
Definition W3LsArgsSchema : ZodType bool :=
  z_object (prop (str "json") (z_boolean_optional_default true)).
Definition W3RmArgsSchema : ZodType (jsstring * bool) :=
  z_object (prop (str "cid") z_string &.
            prop (str "removeShards") (z_boolean_optional_default false)).
Definition W3OpenArgsSchema : ZodType (jsstring * option jsstring) :=
  z_object (prop (str "cid") z_string &.
            prop (str "path") (z_optional z_string)).
Definition W3SpaceInfoArgsSchema : ZodType (option jsstring * bool) :=
  z_object (prop (str "spaceDid") (z_optional (z_string_startsWith (str "did:key:"))) &.
            prop (str "json") (z_boolean_optional_default true)).
Definition W3SpaceAddArgsSchema : ZodType jsstring :=
  z_object (prop (str "proof") z_string).
Definition W3DelegationCreateArgsSchema
  : ZodType (jsstring * list jsstring * option jsstring * option jsstring *
             option jsstring * bool) :=
  z_object (prop (str "audienceDid") z_string &.
            prop (str "capabilities") (z_array_min z_string 1) &.
            prop (str "name") (z_optional z_string) &.
            prop (str "type") (z_optional (z_enum [str "device"; str "app"; str "service"])) &.
            prop (str "output") (z_optional z_string) &.
            prop (str "base64") (z_boolean_optional_default false)).
Definition W3DelegationLsArgsSchema : ZodType bool :=
  z_object (prop (str "json") (z_boolean_optional_default true)).
Definition W3DelegationRevokeArgsSchema : ZodType (jsstring * option jsstring) :=
  z_object (prop (str "delegationCid") z_string &.
            prop (str "proof") (z_optional z_string)).
Definition W3ProofAddArgsSchema : ZodType jsstring :=
  z_object (prop (str "proofPath") z_string).
Definition W3ProofLsArgsSchema : ZodType bool :=
  z_object (prop (str "json") (z_boolean_optional_default true)).
Definition W3KeyCreateArgsSchema : ZodType bool :=
  z_object (prop (str "json") (z_boolean_optional_default false)).
Definition W3BridgeGenerateTokensArgsSchema : ZodType (list jsstring * option Q * bool) :=
  z_object (prop (str "capabilities") (z_array_min z_string 1) &.
            prop (str "expiration") (z_optional z_number_int_positive) &.
            prop (str "json") (z_boolean_optional_default true)).
Definition W3CanBlobAddArgsSchema : ZodType jsstring :=
  z_object (prop (str "path") z_string).
Definition W3CanBlobLsArgsSchema : ZodType (bool * option Q * option jsstring) :=
  z_object (prop (str "json") (z_boolean_optional_default true) &.
            prop (str "size") (z_optional z_number_int_positive) &.
            prop (str "cursor") (z_optional z_string)).
Definition W3CanBlobRmArgsSchema : ZodType jsstring :=
  z_object (prop (str "multihash") z_string).
Definition W3CanIndexAddArgsSchema : ZodType jsstring :=
  z_object (prop (str "cid") z_string).
Definition W3CanUploadAddArgsSchema : ZodType (jsstring * list jsstring) :=
  z_object (prop (str "rootCid") z_string &.
            prop (str "shardCids") (z_array_min z_string 1)).
Definition W3CanUploadLsArgsSchema
  : ZodType (bool * bool * option Q * option jsstring * bool) :=
  z_object (prop (str "json") (z_boolean_optional_default true) &.
            prop (str "shards") (z_boolean_optional_default false) &.
            prop (str "size") (z_optional z_number_int_positive) &.
            prop (str "cursor") (z_optional z_string) &.
            prop (str "pre") (z_boolean_optional_default false)).
Definition W3CanUploadRmArgsSchema : ZodType jsstring :=
  z_object (prop (str "rootCid") z_string).
Definition W3PlanGetArgsSchema : ZodType (option jsstring) :=
  z_object (prop (str "accountId") (z_optional z_string)).
Definition W3AccountLsArgsSchema : ZodType unit := z_object no_props.
Definition W3SpaceProvisionArgsSchema : ZodType (jsstring * jsstring) :=
  z_object (prop (str "customerId") z_string &.
            prop (str "spaceDid") (z_string_startsWith (str "did:key:"))).
Definition W3CouponCreateArgsSchema : ZodType jsstring :=
  z_object (prop (str "claimCode") z_string).
Definition W3UsageReportArgsSchema : ZodType (option jsstring * bool) :=
  z_object (prop (str "spaceDid") (z_optional (z_string_startsWith (str "did:key:"))) &.
            prop (str "json") (z_boolean_optional_default true)).
Definition W3CanAccessClaimArgsSchema : ZodType jsstring :=
  z_object (prop (str "proof") z_string).
Definition W3CanStoreAddArgsSchema : ZodType jsstring :=
  z_object (prop (str "path") z_string).
Definition W3CanStoreLsArgsSchema : ZodType (bool * option Q * option jsstring) :=
  z_object (prop (str "json") (z_boolean_optional_default true) &.
            prop (str "size") (z_optional z_number_int_positive) &.
            prop (str "cursor") (z_optional z_string)).
Definition W3CanStoreRmArgsSchema : ZodType jsstring :=
  z_object (prop (str "carCid") z_string).
Definition W3CanFilecoinInfoArgsSchema : ZodType jsstring :=
  z_object (prop (str "pieceCid") z_string).
Definition W3ResetArgsSchema : ZodType unit :=
  z_object (prop (str "confirmReset") (z_literal (str "yes-i-am-sure"))).

(** A schema with its output type hidden, as [Object.entries(Schemas)]
    sees the exports. *)
Record any_schema := AnySchema { out_type : Type; the_schema : ZodType out_type }.
Arguments AnySchema {out_type} the_schema.

(** The schemas the module exports, in the order of their declarations. *)
Definition declared : list (jsstring * any_schema) :=
  [ (str "W3LoginArgsSchema", AnySchema W3LoginArgsSchema);
    (str "W3SpaceLsArgsSchema", AnySchema W3SpaceLsArgsSchema);
    (str "W3SpaceUseArgsSchema", AnySchema W3SpaceUseArgsSchema);
    (str "W3SpaceCreateArgsSchema", AnySchema W3SpaceCreateArgsSchema);
    (str "W3UpArgsSchema", AnySchema W3UpArgsSchema);
    (str "W3LsArgsSchema", AnySchema W3LsArgsSchema);
    (str "W3RmArgsSchema", AnySchema W3RmArgsSchema);
    (str "W3OpenArgsSchema", AnySchema W3OpenArgsSchema);
    (str "W3SpaceInfoArgsSchema", AnySchema W3SpaceInfoArgsSchema);
    (str "W3SpaceAddArgsSchema", AnySchema W3SpaceAddArgsSchema);
    (str "W3DelegationCreateArgsSchema", AnySchema W3DelegationCreateArgsSchema);
    (str "W3DelegationLsArgsSchema", AnySchema W3DelegationLsArgsSchema);
    (str "W3DelegationRevokeArgsSchema", AnySchema W3DelegationRevokeArgsSchema);
    (str "W3ProofAddArgsSchema", AnySchema W3ProofAddArgsSchema);
    (str "W3ProofLsArgsSchema", AnySchema W3ProofLsArgsSchema);
    (str "W3KeyCreateArgsSchema", AnySchema W3KeyCreateArgsSchema);
    (str "W3BridgeGenerateTokensArgsSchema", AnySchema W3BridgeGenerateTokensArgsSchema);
    (str "W3CanBlobAddArgsSchema", AnySchema W3CanBlobAddArgsSchema);
    (str "W3CanBlobLsArgsSchema", AnySchema W3CanBlobLsArgsSchema);
    (str "W3CanBlobRmArgsSchema", AnySchema W3CanBlobRmArgsSchema);
    (str "W3CanIndexAddArgsSchema", AnySchema W3CanIndexAddArgsSchema);
    (str "W3CanUploadAddArgsSchema", AnySchema W3CanUploadAddArgsSchema);
    (str "W3CanUploadLsArgsSchema", AnySchema W3CanUploadLsArgsSchema);
    (str "W3CanUploadRmArgsSchema", AnySchema W3CanUploadRmArgsSchema);
    (str "W3PlanGetArgsSchema", AnySchema W3PlanGetArgsSchema);
    (str "W3AccountLsArgsSchema", AnySchema W3AccountLsArgsSchema);
    (str "W3SpaceProvisionArgsSchema", AnySchema W3SpaceProvisionArgsSchema);
    (str "W3CouponCreateArgsSchema", AnySchema W3CouponCreateArgsSchema);
    (str "W3UsageReportArgsSchema", AnySchema W3UsageReportArgsSchema);
    (str "W3CanAccessClaimArgsSchema", AnySchema W3CanAccessClaimArgsSchema);
    (str "W3CanStoreAddArgsSchema", AnySchema W3CanStoreAddArgsSchema);
    (str "W3CanStoreLsArgsSchema", AnySchema W3CanStoreLsArgsSchema);
    (str "W3CanStoreRmArgsSchema", AnySchema W3CanStoreRmArgsSchema);
    (str "W3CanFilecoinInfoArgsSchema", AnySchema W3CanFilecoinInfoArgsSchema);
    (str "W3ResetArgsSchema", AnySchema W3ResetArgsSchema) ].

(** [Object.entries(Schemas)]: the namespace of a module lists its exports
    by name, in the order of their code units. *)
Definition exports : list (jsstring * any_schema) := sort_by_name declared.

End Schemas.

(** ** src/tool_handlers.ts *)

Record content_part := mkPart { part_type : jsstring; part_text : jsstring }.

(** [ToolHandlerResponse] *)
Record response := mkResponse { content : list content_part; isError : option bool }.

(** One record of the space listing. *)
Record space := mkSpace { did : jsstring; name : option jsstring; isCurrent : bool }.

Definition space_value (s : space) : value :=
  VObj [ (str "did", VStr (did s));
         (str "name", match name s with Some n => VStr n | None => VUndefined end);
         (str "isCurrent", VBool (isCurrent s)) ].

(** The body of the [for (const line of lines)] loop of [handleW3SpaceLs],
    as the change it makes to [spaces]. *)
Definition space_ls_step (spaces : list space) (line : jsstring) : list space :=
  let trimmedLine := trim line in
  if negb (truthy_str trimmedLine) then spaces
  else
    let '(isCurrent, trimmedLine) :=
      if startsWith (str "*") trimmedLine
      then (true, trim (substring_from 1 trimmedLine))
      else (false, trimmedLine) in
    let parts := split_ws trimmedLine in
    let name :=
      if (1 <? length parts)%nat then Some (join (str " ") (skipn 1 parts)) else None in
    match parts with
    | did :: _ =>
        if truthy_str did && startsWith (str "did:key:") did
        then spaces ++ [mkSpace did name isCurrent]
        else spaces
    | [] => spaces
    end.

(** [stdout.match(/Stored\s+(\S+)\s+\((\S+)\)/)]: the two groups of the
    leftmost match. White space and its complement do not overlap, so the
    runs are maximal; the last group ends before the last closing
    parenthesis of its run. *)
Fixpoint span_ws (s : jsstring) : jsstring * jsstring :=
  match s with
  | c :: r => if is_whitespace c then let '(a, b) := span_ws r in (c :: a, b) else ([], s)
  | [] => ([], [])
  end.

Fixpoint span_non_ws (s : jsstring) : jsstring * jsstring :=
  match s with
  | c :: r => if is_whitespace c then ([], s) else let '(a, b) := span_non_ws r in (c :: a, b)
  | [] => ([], [])
  end.

(** The longest prefix of [run] that is followed by [)], if any. *)
Fixpoint before_last_paren (run : jsstring) : option jsstring :=
  match run with
  | [] => None
  | c :: r =>
      match before_last_paren r with
      | Some p => Some (c :: p)
      | None => if c =? 41 then Some [] else None
      end
  end.

Definition match_stored_here (s : jsstring) : option (jsstring * jsstring) :=
  if startsWith (str "Stored") s then
    let '(ws1, r1) := span_ws (skipn 6 s) in
    let '(g1, r2) := span_non_ws r1 in
    let '(ws2, r3) := span_ws r2 in
    match ws1, g1, ws2, r3 with
    | _ :: _, _ :: _, _ :: _, 40 :: r4 =>
        match before_last_paren (fst (span_non_ws r4)) with
        | Some (c :: g2) => Some (g1, c :: g2)
        | _ => None
        end
    | _, _, _, _ => None
    end
  else None.

Fixpoint match_stored (s : jsstring) : option (jsstring * jsstring) :=
  match match_stored_here s with
  | Some m => Some m
  | None => match s with
            | [] => None
            | _ :: r => match_stored r
            end
  end.

(** An optional string in a template literal. *)
Definition show_opt (o : option jsstring) : jsstring :=
  match o with Some s => s | None => str "undefined" end.

(** Truthiness of an optional string and of an optional number. *)
Definition truthy_opt (o : option jsstring) : bool :=
  match o with Some s => truthy_str s | None => false end.
Definition truthy_opt_num (o : option Q) : bool :=
  match o with Some q => truthy_num q | None => false end.

Section Handlers.
Context `{Runtime}.

Definition ToolHandler : Type := value -> prog response.

(** [{ content: [{ type: "text", text: JSON.stringify({...}) }] }] *)
Definition reply (props : list (jsstring * value)) : response :=
  mkResponse [mkPart (str "text") (JSON_stringify (VObj props))] None.

(** [throw new Error(`Invalid arguments for ${tool}: ${parsed.error.message}`)] *)
Definition invalid_arguments {A} (tool : jsstring) (issues : list zod_issue) : prog A :=
  Throw (new_Error (str "Invalid arguments for " ++ tool ++ str ": " ++ zod_error_message issues)).

(** [info.length > 0 ? info[0] : {}] *)
Definition first_or_empty (l : list value) : value :=
  match l with v :: _ => v | [] => VObj [] end.

Definition handleW3Login : ToolHandler := fun _args =>
  let loginEmail := env_W3_LOGIN_EMAIL in
  _ ← log LInfo (str "Initiating login for " ++ show_opt loginEmail ++
                 str ". User MUST check email to authorize.");
  '(stdout, stderr) ← runW3Command (str "login " ++ show_opt loginEmail);
  let output :=
    str "Login process initiated for " ++ show_opt loginEmail ++
    str ". Output from w3:" ++ nl ++ str "Stdout: " ++ stdout ++ nl ++
    str "Stderr: " ++ stderr ++ nl ++
    str "Please check your email to complete the login." in
  Ret (reply [(str "message", VStr output)]).

Definition handleW3SpaceLs : ToolHandler := fun _args =>
  match safeParse Schemas.W3SpaceLsArgsSchema _args with
  | inl issues => invalid_arguments (str "w3_space_ls") issues
  | inr _ =>
      '(stdout, _) ← runW3Command (str "space ls");
      let lines := split_on 10 (trim stdout) in
      let spaces := fold_left space_ls_step lines [] in
      Ret (reply [(str "spaces", VArr (List.map space_value spaces))])
  end.

Definition handleW3SpaceUse : ToolHandler := fun args =>
  match safeParse Schemas.W3SpaceUseArgsSchema args with
  | inl issues => invalid_arguments (str "w3_space_use") issues
  | inr spaceDid =>
      '(stdout, _) ← runW3Command (str "space use " ++ spaceDid);
      Ret (reply [(str "message", VStr (str "Successfully set current space to " ++ spaceDid));
                  (str "output", VStr (trim stdout))])
  end.

Definition handleW3SpaceCreate : ToolHandler := fun _args =>
  Throw (new_Error (str "`w3 space create` cannot be run via MCP due to interactive recovery key prompts. Please run this command manually in your terminal.")).

Definition handleW3Up : ToolHandler := fun args =>
  match safeParse Schemas.W3UpArgsSchema args with
  | inl issues => invalid_arguments (str "w3_up") issues
  | inr (paths, noWrap, hidden) =>
      let quotedPaths := join (str " ") (List.map (fun p => dq ++ p ++ dq) paths) in
      let command := str "up " ++ quotedPaths in
      let command := if noWrap : bool then command ++ str " --no-wrap" else command in
      let command := if hidden : bool then command ++ str " --hidden" else command in
      '(stdout, _) ← runW3Command command;
      Ret (reply [(str "message", VStr (str "Upload successful."));
                  (str "output", VStr (trim stdout))])
  end.

Definition handleW3Ls : ToolHandler := fun args =>
  match safeParse Schemas.W3LsArgsSchema args with
  | inl issues => invalid_arguments (str "w3_ls") issues
  | inr json =>
      let command := if json : bool then str "ls --json" else str "ls" in
      '(stdout, _) ← runW3Command command;
      if json then
        uploads ← parseNdJson stdout;
        Ret (reply [(str "uploads", VArr uploads)])
      else
        Ret (reply [(str "output", VStr (trim stdout))])
  end.

Definition handleW3Rm : ToolHandler := fun args =>
  match safeParse Schemas.W3RmArgsSchema args with
  | inl issues => invalid_arguments (str "w3_rm") issues
  | inr (cid, removeShards) =>
      let command := str "rm " ++ cid in
      let command := if removeShards : bool then command ++ str " --shards" else command in
      '(stdout, _) ← runW3Command command;
      Ret (reply [(str "message", VStr (str "Successfully removed listing for CID " ++ cid ++ str "."));
                  (str "output", VStr (trim stdout))])
  end.

Definition handleW3Open : ToolHandler := fun args =>
  match safeParse Schemas.W3OpenArgsSchema args with
  | inl issues => invalid_arguments (str "w3_open") issues
  | inr (cid, path) =>
      let baseUrl := str "https://w3s.link/ipfs/" in
      let fullPath := if truthy_opt path then cid ++ str "/" ++ show_opt path else cid in
      let url := baseUrl ++ fullPath in
      Ret (reply [(str "message",
                   VStr (str "To view the content, open this URL in your browser: " ++ url));
                  (str "url", VStr url)])
  end.

Definition handleW3SpaceInfo : ToolHandler := fun args =>
  match safeParse Schemas.W3SpaceInfoArgsSchema args with
  | inl issues => invalid_arguments (str "w3_space_info") issues
  | inr (spaceDid, json) =>
      let command := str "space info" in
      let command :=
        if truthy_opt spaceDid then command ++ str " --space " ++ show_opt spaceDid
        else command in
      let command := if json : bool then command ++ str " --json" else command in
      '(stdout, _) ← runW3Command command;
      if json then
        try_catch
          (info ← parseNdJson stdout;
           Ret (reply [(str "spaceInfo", first_or_empty info)]))
          (fun e =>
             match JSON_parse stdout with
             | inr singleInfo => Ret (reply [(str "spaceInfo", singleInfo)])
             | inl e2 =>
                 _ ← log LWarn (str "w3_space_info: Failed to parse output as NDJSON or JSON: " ++ stdout);
                 Throw (new_Error (str "Failed to parse JSON output for w3_space_info. Raw output: " ++ stdout))
             end)
      else
        Ret (reply [(str "output", VStr (trim stdout))])
  end.

Definition handleW3SpaceAdd : ToolHandler := fun args =>
  match safeParse Schemas.W3SpaceAddArgsSchema args with
  | inl issues => invalid_arguments (str "w3_space_add") issues
  | inr proof =>
      '(stdout, _) ← runW3Command (str "space add " ++ dq ++ proof ++ dq);
      Ret (reply [(str "message", VStr (str "Space added successfully from proof."));
                  (str "output", VStr (trim stdout))])
  end.

Definition handleW3DelegationCreate : ToolHandler := fun args =>
  match safeParse Schemas.W3DelegationCreateArgsSchema args with
  | inl issues => invalid_arguments (str "w3_delegation_create") issues
  | inr (audienceDid, capabilities, delName, type, outFile, base64) =>
      let command := str "delegation create " ++ audienceDid in
      let command :=
        fold_left (fun command cap => command ++ str " --can '" ++ cap ++ str "'")
                  capabilities command in
      let command :=
        if truthy_opt delName then command ++ str " --name " ++ dq ++ show_opt delName ++ dq
        else command in
      let command :=
        if truthy_opt type then command ++ str " --type " ++ show_opt type else command in
      let command :=
        if truthy_opt outFile then command ++ str " --output " ++ dq ++ show_opt outFile ++ dq
        else command in
      let command := if base64 : bool then command ++ str " --base64" else command in
      '(stdout, _) ← runW3Command command;
      let message :=
        if base64 then str "Delegation created successfully (base64 output)."
        else str "Delegation created successfully (output file: " ++ show_opt outFile ++ str ")." in
      Ret (reply [(str "message", VStr message); (str "output", VStr (trim stdout))])
  end.

Definition handleW3DelegationLs : ToolHandler := fun args =>
  match safeParse Schemas.W3DelegationLsArgsSchema args with
  | inl issues => invalid_arguments (str "w3_delegation_ls") issues
  | inr json =>
      let command := if json : bool then str "delegation ls --json" else str "delegation ls" in
      '(stdout, _) ← runW3Command command;
      if json then
        delegations ← parseNdJson stdout;
        Ret (reply [(str "delegations", VArr delegations)])
      else
        Ret (reply [(str "output", VStr (trim stdout))])
  end.

Definition handleW3DelegationRevoke : ToolHandler := fun args =>
  match safeParse Schemas.W3DelegationRevokeArgsSchema args with
  | inl issues => invalid_arguments (str "w3_delegation_revoke") issues
  | inr (delegationCid, proof) =>
      let command := str "delegation revoke " ++ delegationCid in
      let command :=
        if truthy_opt proof then command ++ str " --proof " ++ dq ++ show_opt proof ++ dq
        else command in
      '(stdout, _) ← runW3Command command;
      Ret (reply [(str "message",
                   VStr (str "Successfully revoked delegation " ++ delegationCid ++ str "."));
                  (str "output", VStr (trim stdout))])
  end.

Definition handleW3ProofAdd : ToolHandler := fun args =>
  match safeParse Schemas.W3ProofAddArgsSchema args with
  | inl issues => invalid_arguments (str "w3_proof_add") issues
  | inr proofPath =>
      '(stdout, _) ← runW3Command (str "proof add " ++ dq ++ proofPath ++ dq);
      Ret (reply [(str "message",
                   VStr (str "Successfully added proof from " ++ proofPath ++ str "."));
                  (str "output", VStr (trim stdout))])
  end.

Definition handleW3ProofLs : ToolHandler := fun args =>
  match safeParse Schemas.W3ProofLsArgsSchema args with
  | inl issues => invalid_arguments (str "w3_proof_ls") issues
  | inr json =>
      let command := if json : bool then str "proof ls --json" else str "proof ls" in
      '(stdout, _) ← runW3Command command;
      if json then
        proofs ← parseNdJson stdout;
        Ret (reply [(str "proofs", VArr proofs)])
      else
        Ret (reply [(str "output", VStr (trim stdout))])
  end.

Definition handleW3KeyCreate : ToolHandler := fun args =>
  match safeParse Schemas.W3KeyCreateArgsSchema args with
  | inl issues => invalid_arguments (str "w3_key_create") issues
  | inr json =>
      let command := if json : bool then str "key create --json" else str "key create" in
      '(stdout, _) ← runW3Command command;
      if json then
        match JSON_parse stdout with
        | inr keyData =>
            Ret (reply [(str "message", VStr (str "New key pair created (JSON format)."));
                        (str "keyData", keyData)])
        | inl e =>
            _ ← log LWarn (str "Failed to parse key create JSON, returning raw.");
            Ret (reply [(str "message", VStr (str "New key pair created (raw output)."));
                        (str "output", VStr (trim stdout))])
        end
      else
        Ret (reply [(str "message", VStr (str "New key pair created (raw output)."));
                    (str "output", VStr (trim stdout))])
  end.

Definition handleW3BridgeGenerateTokens : ToolHandler := fun args =>
  match safeParse Schemas.W3BridgeGenerateTokensArgsSchema args with
  | inl issues => invalid_arguments (str "w3_bridge_generate_tokens") issues
  | inr (capabilities, expiration, json) =>
      let command := str "bridge generate-tokens" in
      let command :=
        fold_left (fun command cap => command ++ str " --can '" ++ cap ++ str "'")
                  capabilities command in
      let command :=
        match expiration with
        | Some e => command ++ str " --expiration " ++ number_toString e
        | None => command
        end in
      let command := if json : bool then command ++ str " --json" else command in
      '(stdout, _) ← runW3Command command;
      if json then
        match JSON_parse stdout with
        | inr tokenData =>
            Ret (reply [(str "message", VStr (str "Bridge tokens generated (JSON format)."));
                        (str "tokenData", tokenData)])
        | inl e =>
            _ ← log LWarn (str "Failed to parse bridge tokens JSON, returning raw.");
            Ret (reply [(str "message", VStr (str "Bridge tokens generated (raw output)."));
                        (str "output", VStr (trim stdout))])
        end
      else
        Ret (reply [(str "message", VStr (str "Bridge tokens generated (raw output)."));
                    (str "output", VStr (trim stdout))])
  end.

Definition handleW3CanBlobAdd : ToolHandler := fun args =>
  match safeParse Schemas.W3CanBlobAddArgsSchema args with
  | inl issues => invalid_arguments (str "w3_can_blob_add") issues
  | inr path =>
      '(stdout, _) ← runW3Command (str "can blob add " ++ dq ++ path ++ dq);
      match match_stored stdout with
      | Some (multihash, cid) =>
          Ret (reply [(str "message", VStr (str "Blob added successfully."));
                      (str "multihash", VStr multihash);
                      (str "cid", VStr cid);
                      (str "output", VStr (trim stdout))])
      | None =>
          _ ← log LWarn (str "w3_can_blob_add: Could not parse multihash/CID from output: " ++ stdout);
          Ret (reply [(str "message", VStr (str "Blob added, but output parsing failed."));
                      (str "output", VStr (trim stdout))])
      end
  end.

Definition handleW3CanBlobLs : ToolHandler := fun args =>
  match safeParse Schemas.W3CanBlobLsArgsSchema args with
  | inl issues => invalid_arguments (str "w3_can_blob_ls") issues
  | inr (json, size, cursor) =>
      let command := str "can blob ls" in
      let command := if json : bool then command ++ str " --json" else command in
      let command :=
        match size with
        | Some n => if truthy_num n then command ++ str " --size " ++ number_toString n else command
        | None => command
        end in
      let command :=
        if truthy_opt cursor then command ++ str " --cursor " ++ show_opt cursor else command in
      '(stdout, _) ← runW3Command command;
      if json then
        blobs ← parseNdJson stdout;
        Ret (reply [(str "blobs", VArr blobs)])
      else
        Ret (reply [(str "output", VStr (trim stdout))])
  end.

Definition handleW3CanBlobRm : ToolHandler := fun args =>
  match safeParse Schemas.W3CanBlobRmArgsSchema args with
  | inl issues => invalid_arguments (str "w3_can_blob_rm") issues
  | inr multihash =>
      '(stdout, _) ← runW3Command (str "can blob rm " ++ multihash);
      Ret (reply [(str "message", VStr (str "Blob " ++ multihash ++ str " removed successfully."));
                  (str "output", VStr (trim stdout))])
  end.

Definition handleW3CanIndexAdd : ToolHandler := fun args =>
  match safeParse Schemas.W3CanIndexAddArgsSchema args with
  | inl issues => invalid_arguments (str "w3_can_index_add") issues
  | inr cid =>
      '(stdout, _) ← runW3Command (str "can index add " ++ cid);
      Ret (reply [(str "message", VStr (str "Index CID " ++ cid ++ str " added successfully."));
                  (str "output", VStr (trim stdout))])
  end.

Definition handleW3CanUploadAdd : ToolHandler := fun args =>
  match safeParse Schemas.W3CanUploadAddArgsSchema args with
  | inl issues => invalid_arguments (str "w3_can_upload_add") issues
  | inr (rootCid, shardCids) =>
      let shards := join (str " ") shardCids in
      '(stdout, _) ← runW3Command (str "can upload add " ++ rootCid ++ str " " ++ shards);
      Ret (reply [(str "message",
                   VStr (str "Upload with root " ++ rootCid ++ str " registered successfully."));
                  (str "output", VStr (trim stdout))])
  end.

Definition handleW3CanUploadLs : ToolHandler := fun args =>
  match safeParse Schemas.W3CanUploadLsArgsSchema args with
  | inl issues => invalid_arguments (str "w3_can_upload_ls") issues
  | inr (json, shards, size, cursor, pre) =>
      let command := str "can upload ls" in
      let command := if json : bool then command ++ str " --json" else command in
      let command := if shards : bool then command ++ str " --shards" else command in
      let command :=
        match size with
        | Some n => if truthy_num n then command ++ str " --size " ++ number_toString n else command
        | None => command
        end in
      let command :=
        if truthy_opt cursor then command ++ str " --cursor " ++ show_opt cursor else command in
      let command := if pre : bool then command ++ str " --pre" else command in
      '(stdout, _) ← runW3Command command;
      if json then
        uploads ← parseNdJson stdout;
        Ret (reply [(str "uploads", VArr uploads)])
      else
        Ret (reply [(str "output", VStr (trim stdout))])
  end.

Definition handleW3CanUploadRm : ToolHandler := fun args =>
  match safeParse Schemas.W3CanUploadRmArgsSchema args with
  | inl issues => invalid_arguments (str "w3_can_upload_rm") issues
  | inr rootCid =>
      '(stdout, _) ← runW3Command (str "can upload rm " ++ rootCid);
      Ret (reply [(str "message", VStr (str "Upload " ++ rootCid ++ str " removed successfully."));
                  (str "output", VStr (trim stdout))])
  end.

Definition handleW3PlanGet : ToolHandler := fun args =>
  match safeParse Schemas.W3PlanGetArgsSchema args with
  | inl issues => invalid_arguments (str "w3_plan_get") issues
  | inr accountId =>
      let command := str "plan get" in
      let command :=
        if truthy_opt accountId then command ++ str " --account " ++ show_opt accountId
        else command in
      '(stdout, _) ← runW3Command command;
      try_catch
        (planData ← parseNdJson stdout;
         Ret (reply [(str "message", VStr (str "Plan information retrieved."));
                     (str "planData", first_or_empty planData)]))
        (fun e =>
           _ ← log LWarn (str "w3_plan_get: Failed to parse output as NDJSON: " ++ stdout);
           Throw (new_Error (str "Failed to parse JSON output for w3_plan_get. Raw output: " ++ stdout)))
  end.

Definition handleW3AccountLs : ToolHandler := fun _args =>
  match safeParse Schemas.W3AccountLsArgsSchema _args with
  | inl issues => invalid_arguments (str "w3_account_ls") issues
  | inr _ =>
      '(stdout, _) ← runW3Command (str "account ls");
      try_catch
        (accounts ← parseNdJson stdout;
         Ret (reply [(str "message", VStr (str "Authorized accounts retrieved."));
                     (str "accounts", VArr accounts)]))
        (fun e =>
           _ ← log LWarn (str "w3_account_ls: Failed to parse output as NDJSON: " ++ stdout);
           Throw (new_Error (str "Failed to parse JSON output for w3_account_ls. Raw output: " ++ stdout)))
  end.

Definition handleW3SpaceProvision : ToolHandler := fun args =>
  match safeParse Schemas.W3SpaceProvisionArgsSchema args with
  | inl issues => invalid_arguments (str "w3_space_provision") issues
  | inr (customerId, spaceDid) =>
      '(stdout, _) ← runW3Command (str "space provision " ++ customerId ++ str " --space " ++ spaceDid);
      Ret (reply [(str "message",
                   VStr (str "Space " ++ spaceDid ++ str " provisioned for customer " ++
                         customerId ++ str "."));
                  (str "output", VStr (trim stdout))])
  end.

Definition handleW3CouponCreate : ToolHandler := fun args =>
  match safeParse Schemas.W3CouponCreateArgsSchema args with
  | inl issues => invalid_arguments (str "w3_coupon_create") issues
  | inr claimCode =>
      '(stdout, _) ← runW3Command (str "coupon create " ++ claimCode);
      Ret (reply [(str "message", VStr (str "Attempted to claim coupon."));
                  (str "output", VStr (trim stdout))])
  end.

Definition handleW3UsageReport : ToolHandler := fun args =>
  match safeParse Schemas.W3UsageReportArgsSchema args with
  | inl issues => invalid_arguments (str "w3_usage_report") issues
  | inr (spaceDid, json) =>
      let command := str "usage report" in
      let command :=
        if truthy_opt spaceDid then command ++ str " --space " ++ show_opt spaceDid
        else command in
      let command := if json : bool then command ++ str " --json" else command in
      '(stdout, _) ← runW3Command command;
      if json then
        try_catch
          (report ← parseNdJson stdout;
           Ret (reply [(str "usageReport", first_or_empty report)]))
          (fun e =>
             _ ← log LWarn (str "Failed to parse usage report JSON, returning raw.");
             Ret (reply [(str "output", VStr (trim stdout))]))
      else
        Ret (reply [(str "output", VStr (trim stdout))])
  end.

Definition handleW3CanAccessClaim : ToolHandler := fun args =>
  match safeParse Schemas.W3CanAccessClaimArgsSchema args with
  | inl issues => invalid_arguments (str "w3_can_access_claim") issues
  | inr proof =>
      '(stdout, _) ← runW3Command (str "can access claim " ++ dq ++ proof ++ dq);
      Ret (reply [(str "message", VStr (str "Capability claim attempted."));
                  (str "output", VStr (trim stdout))])
  end.

Definition handleW3CanStoreAdd : ToolHandler := fun args =>
  match safeParse Schemas.W3CanStoreAddArgsSchema args with
  | inl issues => invalid_arguments (str "w3_can_store_add") issues
  | inr path =>
      '(stdout, _) ← runW3Command (str "can store add " ++ dq ++ path ++ dq);
      Ret (reply [(str "message", VStr (str "CAR file stored successfully."));
                  (str "output", VStr (trim stdout))])
  end.

Definition handleW3CanStoreLs : ToolHandler := fun args =>
  match safeParse Schemas.W3CanStoreLsArgsSchema args with
  | inl issues => invalid_arguments (str "w3_can_store_ls") issues
  | inr (json, size, cursor) =>
      let command := str "can store ls" in
      let command := if json : bool then command ++ str " --json" else command in
      let command :=
        match size with
        | Some n => if truthy_num n then command ++ str " --size " ++ number_toString n else command
        | None => command
        end in
      let command :=
        if truthy_opt cursor then command ++ str " --cursor " ++ show_opt cursor else command in
      '(stdout, _) ← runW3Command command;
      if json then
        stores ← parseNdJson stdout;
        Ret (reply [(str "stores", VArr stores)])
      else
        Ret (reply [(str "output", VStr (trim stdout))])
  end.

Definition handleW3CanStoreRm : ToolHandler := fun args =>
  match safeParse Schemas.W3CanStoreRmArgsSchema args with
  | inl issues => invalid_arguments (str "w3_can_store_rm") issues
  | inr carCid =>
      '(stdout, _) ← runW3Command (str "can store rm " ++ carCid);
      Ret (reply [(str "message", VStr (str "Successfully removed CAR shard " ++ carCid ++ str "."));
                  (str "output", VStr (trim stdout))])
  end.

Definition handleW3CanFilecoinInfo : ToolHandler := fun args =>
  match safeParse Schemas.W3CanFilecoinInfoArgsSchema args with
  | inl issues => invalid_arguments (str "w3_can_filecoin_info") issues
  | inr pieceCid =>
      '(stdout, _) ← runW3Command (str "can filecoin info " ++ pieceCid);
      match JSON_parse stdout with
      | inr info => Ret (reply [(str "filecoinInfo", info)])
      | inl e => Ret (reply [(str "output", VStr (trim stdout))])
      end
  end.

Definition handleW3Reset : ToolHandler := fun _args =>
  match safeParse Schemas.W3ResetArgsSchema _args with
  | inl issues => invalid_arguments (str "w3_reset") issues
  | inr _ =>
      '(stdout, _) ← runW3Command (str "reset");
      Ret (reply [(str "message",
                   VStr (str "Agent state reset successfully (proofs/delegations removed)."));
                  (str "output", VStr (trim stdout))])
  end.

(** The entries of [toolHandlers], in source order. *)
Definition toolHandlers_entries : list (jsstring * ToolHandler) :=
  [ (str "w3_login", handleW3Login);
    (str "w3_space_ls", handleW3SpaceLs);
    (str "w3_space_use", handleW3SpaceUse);
    (str "w3_space_create", handleW3SpaceCreate);
    (str "w3_up", handleW3Up);
    (str "w3_ls", handleW3Ls);
    (str "w3_rm", handleW3Rm);
    (str "w3_open", handleW3Open);
    (str "w3_space_info", handleW3SpaceInfo);
    (str "w3_space_add", handleW3SpaceAdd);
    (str "w3_delegation_create", handleW3DelegationCreate);
    (str "w3_delegation_ls", handleW3DelegationLs);
    (str "w3_delegation_revoke", handleW3DelegationRevoke);
    (str "w3_proof_add", handleW3ProofAdd);
    (str "w3_proof_ls", handleW3ProofLs);
    (str "w3_key_create", handleW3KeyCreate);
    (str "w3_bridge_generate_tokens", handleW3BridgeGenerateTokens);
    (str "w3_can_blob_add", handleW3CanBlobAdd);
    (str "w3_can_blob_ls", handleW3CanBlobLs);
    (str "w3_can_blob_rm", handleW3CanBlobRm);
    (str "w3_can_index_add", handleW3CanIndexAdd);
    (str "w3_can_upload_add", handleW3CanUploadAdd);
    (str "w3_can_upload_ls", handleW3CanUploadLs);
    (str "w3_can_upload_rm", handleW3CanUploadRm);
    (str "w3_plan_get", handleW3PlanGet);
    (str "w3_account_ls", handleW3AccountLs);
    (str "w3_space_provision", handleW3SpaceProvision);
    (str "w3_coupon_create", handleW3CouponCreate);
    (str "w3_usage_report", handleW3UsageReport);
    (str "w3_can_access_claim", handleW3CanAccessClaim);
    (str "w3_can_store_add", handleW3CanStoreAdd);
    (str "w3_can_store_ls", handleW3CanStoreLs);
    (str "w3_can_store_rm", handleW3CanStoreRm);
    (str "w3_can_filecoin_info", handleW3CanFilecoinInfo);
    (str "w3_reset", handleW3Reset) ].

(** [toolHandlers]: the record as a finite map from tool names. *)
Definition toolHandlers : gmap jsstring ToolHandler := list_to_map toolHandlers_entries.

End Handlers.

(** ** src/index.ts *)

(** The tool name the [ListTools] handler derives from the name of an
    exported schema. *)
Definition toolName (schemaName : jsstring) : jsstring :=
  substring_from 1
    (toLowerCase
       (replace_first (str "_Args_Schema") [] (underscore_capitals schemaName))).

(** The exports the [ListTools] handler keeps: every export of the module
    is a zod schema, so the filter is on the name alone. *)
Definition listed_schemas : list (jsstring * Schemas.any_schema) :=
  List.filter (fun entry => endsWith (str "ArgsSchema") (fst entry)) Schemas.exports.

(** The names of the tools the [ListTools] handler advertises (their
    descriptions and JSON schemas are left out). *)
Definition listed_tool_names : list jsstring :=
  List.map (fun entry => toolName (fst entry)) listed_schemas.

Section Dispatch.
Context `{Runtime}.

Definition error_response (message : jsstring) : response :=
  mkResponse [mkPart (str "text") (JSON_stringify (VObj [(str "error", VStr message)]))]
             (Some true).

(** The [CallTool] request handler. Property names inherited from
    [Object.prototype] are outside the model: [toolHandlers[name]] is the
    lookup of an own property. *)
Definition callTool (name : jsstring) (args : value) : prog response :=
  _ ← log LInfo (str "Handling CallTool request for: " ++ name);
  match toolHandlers !! name with
  | None =>
      _ ← log LError (str "Unknown tool requested: " ++ name);
      Ret (error_response (str "Unknown tool: " ++ name))
  | Some handler =>
      try_catch (handler args) (fun error =>
        _ ← log_with LError (str "Error handling tool '" ++ name ++ str "':") error;
        Ret (error_response (err_message error)))
  end.

End Dispatch.

(** ** A reference runtime

    A small instance of the interface, to run the handlers on examples:
    [JSON.parse] for the texts [true], [false], [null], [{}], [[]] and the
    non-negative decimal integers, with JSON white space around them; a
    [JSON.stringify] for the values above; decimal rendering of integers. *)
Module Reference.

Definition is_digit (c : N) : bool := (48 <=? c) && (c <=? 57).

Definition digits_value (s : jsstring) : Z :=
  fold_left (fun acc c => (10 * acc + Z.of_N (c - 48))%Z) s 0%Z.

Definition syntax_error (msg : jsstring) : js_error :=
  mkError ClsSyntaxError msg None None.

(** The white space of the JSON grammar: tab, line feed, carriage return
    and space. *)
Definition json_whitespace (c : N) : bool :=
  (c =? 9) || (c =? 10) || (c =? 13) || (c =? 32).

(** No white space that JSON does not know. *)
Definition json_spaced (s : jsstring) : bool :=
  forallb (fun c => negb (is_whitespace c) || json_whitespace c) s.

(** A decimal integer of the JSON grammar: digits, no leading zero. *)
Definition is_integer_text (t : jsstring) : bool :=
  forallb is_digit t &&
  match t with
  | [] => false
  | 48 :: _ :: _ => false
  | _ => true
  end.

(** The value of a text that holds no white space. *)
Definition parse_text (t : jsstring) : js_error + value :=
  if decide (t = str "true") then inr (VBool true)
  else if decide (t = str "false") then inr (VBool false)
  else if decide (t = str "null") then inr VNull
  else if decide (t = str "{}") then inr (VObj [])
  else if decide (t = str "[]") then inr (VArr [])
  else if is_integer_text t then inr (VNum (Qmake (digits_value t) 1))
  else match t with
       | [] => inl (syntax_error (str "Unexpected end of JSON input"))
       | c :: _ => inl (syntax_error (str "Unexpected token " ++ [c] ++ str " in JSON"))
       end.

Definition parse (s : jsstring) : js_error + value :=
  if json_spaced s then parse_text (trim s)
  else inl (syntax_error (str "Unexpected token in JSON")).

Definition show_Z (z : Z) : jsstring :=
  str (NilZero.string_of_int (Z.to_int z)).

Definition show_number (q : Q) : jsstring :=
  if is_integer q then show_Z (Qnum q / Zpos (Qden q))
  else show_Z (Qnum q) ++ str "/" ++ show_Z (Zpos (Qden q)).

(** A string literal: the quote and the backslash are escaped, the line
    feed is written [\n]. *)
Definition quote (s : jsstring) : jsstring :=
  dq ++ flat_map (fun c => if (c =? 34) || (c =? 92) then [92; c]
                           else if c =? 10 then [92; 110] else [c]) s ++ dq.

(** [JSON.stringify]: [None] stands for [undefined]; a property whose value
    is [undefined] is dropped, an item that is [undefined] is written
    [null]. *)
Fixpoint stringify_opt (v : value) : option jsstring :=
  match v with
  | VUndefined => None
  | VNull => Some (str "null")
  | VBool true => Some (str "true")
  | VBool false => Some (str "false")
  | VNum q => Some (show_number q)
  | VStr s => Some (quote s)
  | VArr items =>
      Some (str "[" ++
            join (str ",")
              (List.map (fun item => match stringify_opt item with
                                     | Some t => t
                                     | None => str "null"
                                     end) items) ++
            str "]")
  | VObj props =>
      Some (str "{" ++
            join (str ",")
              (flat_map (fun kv => match stringify_opt (snd kv) with
                                   | Some t => [quote (fst kv) ++ str ":" ++ t]
                                   | None => []
                                   end) props) ++
            str "}")
  end.

Definition stringify (v : value) : jsstring :=
  match stringify_opt v with Some t => t | None => str "undefined" end.

Definition issue_name (c : issue_code) : jsstring :=
  match c with
  | invalid_type _ _ => str "invalid_type"
  | too_small_array _ | too_small_number => str "too_small"
  | not_starting_with _ => str "invalid_string"
  | invalid_enum_value _ => str "invalid_enum_value"
  | invalid_literal _ => str "invalid_literal"
  end.

Definition issues_message (issues : list zod_issue) : jsstring :=
  str "[" ++ join (str ",") (List.map (fun i => issue_name (issue_code_of i)) issues) ++ str "]".

#[export] Instance runtime : Runtime := {
  JSON_parse := parse;
  JSON_stringify := stringify;
  number_toString := show_number;
  zod_error_message := issues_message;
  env_W3_LOGIN_EMAIL := Some (str "user@example.com")
}.

(** A shell whose every subprocess succeeds with the given output. *)
Definition prints (stdout : jsstring) : shell := fun _ _ => inr (stdout, []).

(** A shell whose every subprocess fails. *)
Definition fails (message stderr : jsstring) : shell :=
  fun _ _ => inl (mkError ClsError message (Some stderr) None).

End Reference.

(** ** Notions the properties are stated with *)

(** A string of white space only (the empty string is one). *)
Definition all_ws (s : jsstring) : bool := forallb is_whitespace s.

(** [s] is [t] with white space added at its two ends. *)
Definition padded (s t : jsstring) : Prop :=
  exists a b, s = a ++ t ++ b /\ all_ws a = true /\ all_ws b = true.

(** The pieces, with [x] added at the end of the last one: how the pieces
    of a string grow when text is appended to it. *)
Fixpoint glue_last (pieces : list jsstring) (x : jsstring) : list jsstring :=
  match pieces with
  | [] => [x]
  | [l] => [l ++ x]
  | l :: ls => l :: glue_last ls x
  end.

(** A line that is not blank: [line.trim() !== ""]. *)
Definition nonblank (line : jsstring) : bool := truthy_str (trim line).

(** The non-blank lines of an input, as the specification counts them:
    the input cut at its line feeds, the blank pieces left out. *)
Definition input_lines (ndjson : jsstring) : list jsstring :=
  List.filter nonblank (split_on 10 ndjson).

Section ParseNdJsonNotions.
Context `{Runtime}.

(** A line is well-formed JSON when [JSON.parse] returns a value for it. *)
Definition well_formed (line : jsstring) : Prop := exists v, JSON_parse line = inr v.

(** It is malformed when [JSON.parse] throws. *)
Definition malformed (line : jsstring) : Prop := exists e, JSON_parse line = inl e.

(** [JSON.parse] skips white space around the text: a text it accepts is
    still accepted, with the same value, once white space is removed at
    its ends. *)
Definition ignores_outer_whitespace : Prop :=
  forall s t v, padded s t -> JSON_parse s = inr v -> JSON_parse t = inr v.

(** The line report [parseNdJson] logs for the line at [index]. *)
Definition line_report (index : nat) (line : jsstring) (message : jsstring) : jsstring :=
  str "Failed to parse NDJSON line #" ++ nat_to_str (index + 1) ++
  str ". Error: " ++ message ++
  str ". Line content: " ++ dq ++ substring 0 100 line ++
  (if (100 <? length line)%nat then str "..." else []) ++ dq.

(** The batch report it logs next. *)
Definition batch_report (ndjson message : jsstring) : jsstring :=
  str "Failed to parse NDJSON output. Error: " ++ message ++
  str ". Full NDJSON (start): " ++ substring 0 200 ndjson ++ str "...".

(** The message of the error [parseNdJson] throws. *)
Definition batch_message (message : jsstring) : jsstring :=
  str "Failed to parse NDJSON output. Error: " ++ message ++
  str ". Please check w3cli output format.".

End ParseNdJsonNotions.

(** The message of the error [runW3Command] throws for a failed
    subprocess: the failure message wrapped, the captured stderr after it
    when there is some. *)
Definition wrapped_failure (command : jsstring) (error : js_error) : jsstring :=
  str "Failed to execute 'w3 " ++ command ++ str "': " ++
  match err_stderr error with
  | Some (c :: stderr) => err_message error ++ nl ++ str "Stderr: " ++ c :: stderr
  | _ => err_message error
  end.

(** The records one line of the listing adds. *)
Definition line_records (line : jsstring) : list space := space_ls_step [] line.

(** The text of a line once trimmed and relieved of its leading star. *)
Definition unstarred (line : jsstring) : jsstring :=
  let trimmedLine := trim line in
  if startsWith (str "*") trimmedLine then trim (substring_from 1 trimmedLine)
  else trimmedLine.

(** The first white-space-separated token of a text. *)
Definition first_token (s : jsstring) : jsstring := hd [] (split_ws s).

(** A program that starts no subprocess. *)
Inductive silent {A} : prog A -> Prop :=
| silent_ret a : silent (Ret a)
| silent_throw e : silent (Throw e)
| silent_log l m d k : silent k -> silent (Log l m d k).

(** A program that starts exactly one subprocess, whatever the subprocess
    settles to, and ends (returns or throws) only after it has settled. *)
Inductive spawns_once {A} : prog A -> Prop :=
| once_log l m d k : spawns_once k -> spawns_once (Log l m d k)
| once_exec c k : (forall r, silent (k r)) -> spawns_once (Exec c k).

(** The message of the error [handleW3SpaceCreate] throws. *)
Definition space_create_refusal : jsstring :=
  str "`w3 space create` cannot be run via MCP due to interactive recovery key prompts. Please run this command manually in your terminal.".

Section ValidationNotions.
Context `{Runtime}.

(** A handler that throws the validation error for every argument bag its
    schema rejects, before anything else. *)
Definition rejects_invalid (name : jsstring) (handler : ToolHandler)
    (S : Schemas.any_schema) : Prop :=
  name <> str "w3_login" -> name <> str "w3_space_create" ->
  forall args issues,
    safeParse (Schemas.the_schema S) args = inl issues ->
    handler args = invalid_arguments name issues.

End ValidationNotions.

(** How many subprocesses a call of a tool starts, from whether its
    arguments satisfy the schema of the tool: [w3_login] does not look at
    them, [w3_open] and [w3_space_create] start none, the others start one
    once the arguments are accepted. *)
Definition expected_spawns (name : jsstring) (valid : bool) : nat :=
  if decide (name = str "w3_login") then 1%nat
  else if decide (name = str "w3_open") then 0%nat
  else if decide (name = str "w3_space_create") then 0%nat
  else if valid then 1%nat else 0%nat.

(** [schema.safeParse(args).success] *)
Definition accepts (S : Schemas.any_schema) (args : value) : bool :=
  match safeParse (Schemas.the_schema S) args with
  | inr _ => true
  | inl _ => false
  end.

(** The shape of a program that starts [n] subprocesses, for [n] at most
    one. *)
Definition spawn_shape {A} (n : nat) (p : prog A) : Prop :=
  match n with
  | 0%nat => silent p
  | _ => spawns_once p
  end.

Section OneSubprocessNotions.
Context `{Runtime}.

(** A handler whose every call has the shape [expected_spawns] tells. *)
Definition spawns_as_expected (name : jsstring) (handler : ToolHandler)
    (S : Schemas.any_schema) : Prop :=
  forall args, spawn_shape (expected_spawns name (accepts S args)) (handler args).

End OneSubprocessNotions.

(** The property names every object inherits from [Object.prototype]:
    [toolHandlers[name]] finds a value for them although the record has no
    such entry. The dispatcher is modelled for the other names. *)
Definition Object_prototype_names : list jsstring :=
  [ str "constructor"; str "__defineGetter__"; str "__defineSetter__";
    str "hasOwnProperty"; str "__lookupGetter__"; str "__lookupSetter__";
    str "isPrototypeOf"; str "propertyIsEnumerable"; str "toString";
    str "valueOf"; str "__proto__"; str "toLocaleString" ].

(** A token: a non-empty string without white space. *)
Definition is_token (t : jsstring) : bool :=
  truthy_str t && forallb (fun c => negb (is_whitespace c)) t.

(** A line of the listing of spaces as [w3 space ls] lays it out: a star
    and a space for the current space, two spaces for the others, then the
    DID and the words of the name, one space between them. *)
Definition listing_line (current : bool) (did : jsstring) (words : list jsstring) : jsstring :=
  (if current then str "* " else str "  ") ++ join (str " ") (did :: words).

(** The record such a line stands for. *)
Definition listed_space (current : bool) (did : jsstring) (words : list jsstring) : space :=
  mkSpace did
    (match words with [] => None | _ => Some (join (str " ") words) end)
    current.

(** A listing: every line followed by a line feed. *)
Definition listing (lines : list jsstring) : jsstring :=
  flat_map (fun line => line ++ nl) lines.

Section MalformedNotions.
Context `{Runtime}.

(** [e] is what [JSON.parse] throws for the first of the lines that it
    rejects. *)
Definition malformed_with (e : js_error) (lines : list jsstring) : Prop :=
  exists good bad rest,
    lines = good ++ bad :: rest /\ Forall well_formed good /\ JSON_parse bad = inl e.

End MalformedNotions.

(** A program that returns whenever its subprocesses succeed: nothing it
    does with their output makes it throw. *)
Inductive settles {A} : prog A -> Prop :=
| settles_ret a : settles (Ret a)
| settles_log l m d k : settles k -> settles (Log l m d k)
| settles_exec c k : (forall out, settles (k (inr out))) -> settles (Exec c k).

(** The tools whose handler throws on output it cannot parse, and
    [w3_space_create], whose handler always throws. *)
Definition throwing_tools : list jsstring :=
  [ str "w3_space_create"; str "w3_ls"; str "w3_space_info"; str "w3_delegation_ls";
    str "w3_proof_ls"; str "w3_can_blob_ls"; str "w3_can_upload_ls"; str "w3_plan_get";
    str "w3_account_ls"; str "w3_can_store_ls" ].

Section SettlesNotions.
Context `{Runtime}.

(** A handler that returns for every argument bag its schema accepts,
    once the subprocess has succeeded. *)
Definition tolerates_output (name : jsstring) (handler : ToolHandler)
    (S : Schemas.any_schema) : Prop :=
  name ∉ throwing_tools ->
  forall args, accepts S args = true -> settles (handler args).

End SettlesNotions.

(** A capitalised word: an ASCII capital, then no capital. *)
Definition capitalised (w : jsstring) : bool :=
  match w with
  | c :: r => is_upper c && forallb (fun c => negb (is_upper c)) r
  | [] => false
  end.

Section FailureNotions.
Context `{Runtime}.

(** A handler that lets the failure of its subprocess through. *)
Definition lets_failure_through (handler : ToolHandler) : Prop :=
  forall args sh error,
    (forall i c, sh i c = inl error) ->
    silent (handler args) \/
    exists command,
      snd (run sh (handler args)) = inl (new_Error (wrapped_failure command error)) /\
      spawned (fst (run sh (handler args))) = [str "w3 " ++ command].

End FailureNotions.

(** The last code unit is not white space. *)
Definition ends_tight (s : jsstring) : bool :=
  match rev s with
  | c :: _ => negb (is_whitespace c)
  | [] => false
  end.

(** The value of an optional string property. *)
Definition optional_string (o : option jsstring) : value :=
  match o with Some s => VStr s | None => VUndefined end.

(** * Properties *)

(** ** The primitives on examples *)

Example split_on_trailing : split_on 10 (str "a" ++ nl) = [str "a"; []].
Proof. reflexivity. Qed.

Example split_ws_two : split_ws (str "did:key:abc  my-space") = [str "did:key:abc"; str "my-space"].
Proof. reflexivity. Qed.

Example trim_both : trim (str "  a b " ++ nl) = str "a b".
Proof. reflexivity. Qed.

Example match_stored_ex :
  match_stored (str "Stored zQm123 (bafk456)") = Some (str "zQm123", str "bafk456").
Proof. reflexivity. Qed.

Example toolName_login : toolName (str "W3LoginArgsSchema") = str "w3_login".
Proof. reflexivity. Qed.

Example toolName_bridge :
  toolName (str "W3BridgeGenerateTokensArgsSchema") = str "w3_bridge_generate_tokens".
Proof. reflexivity. Qed.

(** The tools are advertised in the order of the names of their schemas,
    not in the order of the declarations. *)
Example listed_tool_names_first :
  firstn 4 listed_tool_names
  = [str "w3_account_ls"; str "w3_bridge_generate_tokens"; str "w3_can_access_claim";
     str "w3_can_blob_add"].
Proof. vm_compute. reflexivity. Qed.

Example stringify_space :
  Reference.stringify (space_value (mkSpace (str "did:key:abc") None true))
  = str "{" ++ dq ++ str "did" ++ dq ++ str ":" ++ dq ++ str "did:key:abc" ++ dq ++
    str "," ++ dq ++ str "isCurrent" ++ dq ++ str ":true}".
Proof. reflexivity. Qed.

Example parseNdJson_two_lines :
  @parseNdJson Reference.runtime (str "true" ++ nl ++ nl ++ str " 42 " ++ nl)
  = Ret [VBool true; VNum (Qmake 42 1)].
Proof. reflexivity. Qed.

(** ** White space, [trim] and [split] *)

Lemma all_ws_app a b : all_ws (a ++ b) = all_ws a && all_ws b.
Proof. apply forallb_app. Qed.

Lemma all_ws_rev a : all_ws (rev a) = all_ws a.
Proof.
  induction a as [|c a IH]; simpl; [done|].
  rewrite all_ws_app, IH. simpl. destruct (is_whitespace c), (all_ws a); done.
Qed.

Lemma trimStart_ws_app a x : all_ws a = true -> trimStart (a ++ x) = trimStart x.
Proof.
  induction a as [|c a IH]; simpl; [done|].
  intros [Hc Ha]%andb_prop. rewrite Hc. auto.
Qed.

Lemma trimStart_split s : exists p, s = p ++ trimStart s /\ all_ws p = true.
Proof.
  induction s as [|c s (p & Hs & Hp)]; simpl.
  - by exists [].
  - destruct (is_whitespace c) eqn:Hc.
    + exists (c :: p). simpl. rewrite Hc, Hp. split; [congruence|done].
    + by exists [].
Qed.

Lemma trimStart_nil s : trimStart s = [] <-> all_ws s = true.
Proof.
  induction s as [|c s IH]; simpl; [done|].
  destruct (is_whitespace c); simpl; [done|]. split; discriminate.
Qed.

Lemma trimEnd_split s : exists q, s = trimEnd s ++ q /\ all_ws q = true.
Proof.
  destruct (trimStart_split (rev s)) as (p & Hs & Hp).
  exists (rev p). split; [|by rewrite all_ws_rev].
  unfold trimEnd. rewrite <- rev_app_distr, <- Hs. by rewrite rev_involutive.
Qed.

Lemma trimEnd_ws_app x b : all_ws b = true -> trimEnd (x ++ b) = trimEnd x.
Proof.
  intros Hb. unfold trimEnd. rewrite rev_app_distr, trimStart_ws_app; [done|].
  by rewrite all_ws_rev.
Qed.

Lemma trimEnd_nil s : trimEnd s = [] <-> all_ws s = true.
Proof.
  unfold trimEnd. rewrite <- (all_ws_rev s), <- trimStart_nil.
  split; intros Hs.
  - apply (f_equal (@rev N)) in Hs. by rewrite rev_involutive in Hs.
  - by rewrite Hs.
Qed.

Lemma trim_split s : padded s (trim s).
Proof.
  destruct (trimStart_split s) as (p & Hs & Hp).
  destruct (trimEnd_split (trimStart s)) as (q & Ht & Hq).
  exists p, q. unfold trim. by rewrite <- Ht.
Qed.

Lemma trim_nil s : trim s = [] <-> all_ws s = true.
Proof.
  unfold trim. rewrite trimEnd_nil.
  destruct (trimStart_split s) as (p & Hs & Hp).
  rewrite Hs at 2. rewrite all_ws_app, Hp. done.
Qed.

(** A line is blank when [line.trim()] is the empty string, that is when
    it holds white space only. *)
Lemma nonblank_spec s : truthy_str (trim s) = negb (all_ws s).
Proof.
  destruct (all_ws s) eqn:Hs.
  - apply trim_nil in Hs. by rewrite Hs.
  - destruct (trim s) eqn:Ht; [|done].
    apply trim_nil in Ht. congruence.
Qed.

Lemma trim_padded s t : padded s t -> trim s = trim t.
Proof.
  intros (a & b & -> & Ha & Hb). unfold trim.
  rewrite trimStart_ws_app by done.
  destruct (all_ws t) eqn:Ht.
  - rewrite (trimStart_ws_app t b Ht).
    apply trimStart_nil in Ht as ->.
    assert (trimStart b = []) as -> by by apply trimStart_nil.
    done.
  - assert (trimStart (t ++ b) = trimStart t ++ b) as ->.
    { clear -Ht. induction t as [|c t IH]; simpl in *; [done|].
      destruct (is_whitespace c); simpl in *; auto. }
    by apply trimEnd_ws_app.
Qed.

Lemma padded_refl s : padded s s.
Proof. exists [], []. by rewrite app_nil_r. Qed.

Lemma padded_trans s t u : padded s t -> padded t u -> padded s u.
Proof.
  intros (a & b & -> & Ha & Hb) (a' & b' & -> & Ha' & Hb').
  exists (a ++ a'), (b' ++ b). rewrite !all_ws_app, Ha, Hb, Ha', Hb'.
  split; [|done]. by rewrite <- !app_assoc.
Qed.

Lemma padded_blank s t : padded s t -> all_ws s = all_ws t.
Proof.
  intros (a & b & -> & Ha & Hb). rewrite !all_ws_app, Ha, Hb.
  by destruct (all_ws t).
Qed.

Lemma split_on_nonempty sep s : split_on sep s <> [].
Proof.
  destruct s as [|c s]; simpl; [done|].
  destruct (c =? sep); [done|]. by destruct (split_on sep s).
Qed.

Lemma split_on_app sep a b :
  split_on sep (a ++ b) =
  glue_last (split_on sep a) (hd [] (split_on sep b)) ++ tl (split_on sep b).
Proof.
  induction a as [|c a IH]; simpl.
  - pose proof (split_on_nonempty sep b). by destruct (split_on sep b).
  - pose proof (split_on_nonempty sep a) as Ha.
    destruct (c =? sep).
    + rewrite IH. by destruct (split_on sep a).
    + rewrite IH. destruct (split_on sep a) as [|l [|l' ls]]; done.
Qed.

Lemma split_on_ws_pieces s :
  all_ws s = true -> forallb all_ws (split_on 10 s) = true.
Proof.
  induction s as [|c s IH]; simpl; [done|].
  intros [Hc Hs]%andb_prop. specialize (IH Hs).
  destruct (c =? 10); simpl; [done|].
  pose proof (split_on_nonempty 10 s).
  destruct (split_on 10 s) as [|l ls]; simpl in *; [done|].
  apply andb_prop in IH as [Hl Hls]. by rewrite Hc, Hl, Hls.
Qed.

Lemma filter_blank_pieces ls :
  forallb all_ws ls = true -> List.filter nonblank ls = [].
Proof.
  induction ls as [|l ls IH]; simpl; [done|].
  intros [Hl Hls]%andb_prop. unfold nonblank at 1.
  rewrite nonblank_spec, Hl. simpl. auto.
Qed.

Lemma nonblank_padded s t : padded s t -> nonblank s = nonblank t.
Proof.
  intros Hp. unfold nonblank. by rewrite !nonblank_spec, (padded_blank s t Hp).
Qed.

Lemma Forall2_padded_refl ls : Forall2 padded ls ls.
Proof. induction ls; constructor; auto using padded_refl. Qed.

Lemma Forall2_padded_trans l1 l2 l3 :
  Forall2 padded l1 l2 -> Forall2 padded l2 l3 -> Forall2 padded l1 l3.
Proof.
  intros H12. revert l3. induction H12; intros l3 H23; inversion H23; subst.
  - constructor.
  - constructor; eauto using padded_trans.
Qed.

(** White space after the text: the last piece grows, blank pieces follow. *)
Lemma filter_glue_last_right ls x :
  ls <> [] -> all_ws x = true ->
  Forall2 padded (List.filter nonblank (glue_last ls x)) (List.filter nonblank ls).
Proof.
  intros Hls Hx. induction ls as [|l [|l' ls] IH]; [done| |].
  - simpl. assert (padded (l ++ x) l) as Hp.
    { exists [], x. by rewrite app_nil_l. }
    rewrite (nonblank_padded _ _ Hp). destruct (nonblank l); by repeat constructor.
  - change (glue_last (l :: l' :: ls) x) with (l :: glue_last (l' :: ls) x).
    cbn [List.filter]. destruct (nonblank l).
    + constructor; [apply padded_refl|]. by apply IH.
    + by apply IH.
Qed.

(** White space before the text: blank pieces come first, the first piece
    of the text grows. *)
Lemma filter_glue_last_left ls y :
  forallb all_ws ls = true ->
  Forall2 padded (List.filter nonblank (glue_last ls y)) (List.filter nonblank [y]).
Proof.
  intros Hls. induction ls as [|l [|l' ls] IH].
  - apply Forall2_padded_refl.
  - simpl in Hls. apply andb_prop in Hls as [Hl _].
    assert (padded (l ++ y) y) as Hp.
    { exists l, []. by rewrite app_nil_r. }
    cbn [glue_last List.filter]. rewrite (nonblank_padded _ _ Hp).
    destruct (nonblank y); by repeat constructor.
  - change (glue_last (l :: l' :: ls) y) with (l :: glue_last (l' :: ls) y).
    cbn [forallb] in Hls. apply andb_prop in Hls as [Hl Hls].
    cbn [List.filter]. unfold nonblank at 1. rewrite nonblank_spec, Hl. cbn [negb].
    by apply IH.
Qed.

Lemma lines_ws_right x b :
  all_ws b = true ->
  Forall2 padded (List.filter nonblank (split_on 10 (x ++ b)))
                 (List.filter nonblank (split_on 10 x)).
Proof.
  intros Hb. rewrite split_on_app, List.filter_app.
  pose proof (split_on_ws_pieces b Hb) as Hpieces.
  pose proof (split_on_nonempty 10 b).
  destruct (split_on 10 b) as [|hb tb]; [done|].
  cbn [hd tl]. cbn [forallb] in Hpieces. apply andb_prop in Hpieces as [Hhb Htb].
  rewrite (filter_blank_pieces tb Htb), app_nil_r.
  apply filter_glue_last_right; [apply split_on_nonempty|done].
Qed.

Lemma lines_ws_left a y :
  all_ws a = true ->
  Forall2 padded (List.filter nonblank (split_on 10 (a ++ y)))
                 (List.filter nonblank (split_on 10 y)).
Proof.
  intros Ha. rewrite split_on_app, List.filter_app.
  pose proof (split_on_nonempty 10 y).
  destruct (split_on 10 y) as [|hy ty]; [done|].
  cbn [hd tl]. change (hy :: ty) with ([hy] ++ ty). rewrite (List.filter_app _ [hy] ty).
  apply Forall2_app; [|apply Forall2_padded_refl].
  by apply filter_glue_last_left, split_on_ws_pieces.
Qed.

Lemma lines_padded s t :
  padded s t ->
  Forall2 padded (List.filter nonblank (split_on 10 s))
                 (List.filter nonblank (split_on 10 t)).
Proof.
  intros (a & b & -> & Ha & Hb).
  eapply Forall2_padded_trans; [by apply lines_ws_left|by apply lines_ws_right].
Qed.

Lemma ndjson_lines_input ndjson :
  Forall2 padded (input_lines ndjson) (ndjson_lines ndjson).
Proof. apply lines_padded, trim_split. Qed.

Lemma includes_app_r p a s : includes p s = true -> includes p (a ++ s) = true.
Proof.
  intros Hs. induction a as [|c a IH]; simpl; [done|].
  rewrite IH. apply orb_true_r.
Qed.

Lemma startsWith_app p s : startsWith p (p ++ s) = true.
Proof. induction p as [|c p IH]; simpl; [done|]. by rewrite N.eqb_refl. Qed.

Lemma includes_prefix p s : startsWith p s = true -> includes p s = true.
Proof. intros Hp. destruct s; simpl; by rewrite Hp. Qed.

Lemma includes_middle p a b : includes p (a ++ p ++ b) = true.
Proof. apply includes_app_r, includes_prefix, startsWith_app. Qed.

(** ** [parseNdJson] *)

Section ParseNdJson.
Context `{Runtime}.

Lemma parse_line_ok line index v :
  JSON_parse line = inr v -> parse_line line index = Ret v.
Proof. unfold parse_line. by intros ->. Qed.

Lemma parse_line_fail line index e :
  JSON_parse line = inl e ->
  exists e', err_message e' = err_message e /\
             parse_line line index =
             Log LError (line_report index line (err_message e)) None (Throw e').
Proof.
  unfold parse_line. intros ->.
  destruct (err_class e) eqn:Hc; [by exists e|].
  destruct (includes (str "Unexpected token") (err_message e));
    eexists; (split; [|reflexivity]); done.
Qed.

Lemma map_lines_ok lines records index :
  Forall2 (fun line v => JSON_parse line = inr v) lines records ->
  map_lines lines index = Ret records.
Proof.
  intros Hall. revert index.
  induction Hall as [|line v lines records Hv _ IH]; intros index; simpl; [done|].
  by rewrite (parse_line_ok _ _ _ Hv), IH.
Qed.

Lemma map_lines_fail good bad rest index e :
  Forall well_formed good -> JSON_parse bad = inl e ->
  exists e', err_message e' = err_message e /\
             map_lines (good ++ bad :: rest) index =
             Log LError (line_report (index + length good) bad (err_message e)) None (Throw e').
Proof.
  intros Hgood Hbad. revert index.
  induction Hgood as [|line good [v Hv] _ IH]; intros index.
  - destruct (parse_line_fail bad index e Hbad) as (e' & Hm & Hp).
    exists e'. split; [done|]. simpl. rewrite Hp, Nat.add_0_r. done.
  - destruct (IH (S index)) as (e' & Hm & Hp).
    exists e'. split; [done|]. simpl.
    rewrite (parse_line_ok _ _ _ Hv), Hp. simpl.
    by rewrite Nat.add_succ_r.
Qed.

Lemma first_malformed lines :
  Exists malformed lines ->
  exists good bad rest, lines = good ++ bad :: rest /\ Forall well_formed good /\ malformed bad.
Proof.
  induction lines as [|line lines IH]; intros Hex; [by inversion Hex|].
  destruct (JSON_parse line) as [e|v] eqn:Hline.
  - exists [], line, lines. repeat split; [constructor|by exists e].
  - inversion Hex as [? ? [e He]|? ? Hex']; subst; [congruence|].
    destruct (IH Hex') as (good & bad & rest & -> & Hgood & Hbad).
    exists (line :: good), bad, rest. repeat split; [|done].
    constructor; [by exists v|done].
Qed.

End ParseNdJson.

Section ParseNdJsonClaims.
Context `{Runtime}.

(** C2. When every non-blank line of the input is well-formed JSON,
    [parseNdJson] returns, without logging or throwing, exactly one parsed
    record per non-blank line, in the order of the lines; blank lines give
    no record. [JSON.parse] is taken to skip white space around a text. *)
Theorem parseNdJson_well_formed (ndjson : jsstring) :
  ignores_outer_whitespace ->
  Forall well_formed (input_lines ndjson) ->
  exists records,
    parseNdJson ndjson = Ret records /\
    Forall2 (fun line v => JSON_parse line = inr v) (input_lines ndjson) records /\
    length records = length (List.filter nonblank (split_on 10 ndjson)).
Proof.
  intros Hws Hall.
  assert (exists records,
             Forall2 (fun line v => JSON_parse line = inr v) (input_lines ndjson) records /\
             Forall2 (fun line v => JSON_parse line = inr v) (ndjson_lines ndjson) records)
    as (records & Hin & Hcode).
  { pose proof (ndjson_lines_input ndjson) as Hpad.
    induction Hpad as [|raw line raws lines Hp _ IH].
    - exists []. split; constructor.
    - inversion Hall as [|? ? [v Hv] Hall']; subst.
      destruct (IH Hall') as (records & Hin & Hcode).
      exists (v :: records). split; constructor; eauto. }
  exists records. split; [|split; [done|]].
  - unfold parseNdJson. by rewrite (map_lines_ok _ _ _ Hcode).
  - symmetry. apply (Forall2_length _ _ _ Hin).
Qed.

(** C3, as the code has it. When a non-blank line of the trimmed input is
    not well-formed JSON, [parseNdJson] throws and returns no records. The
    error carries the message of [JSON.parse] for the first such line, and
    the line report that is logged holds the first 100 code units of that
    line: the whole line when it has at most 100. *)
Theorem parseNdJson_malformed (ndjson : jsstring) :
  Exists malformed (ndjson_lines ndjson) ->
  exists good bad rest e,
    ndjson_lines ndjson = good ++ bad :: rest /\
    Forall well_formed good /\
    JSON_parse bad = inl e /\
    (forall sh,
       run sh (parseNdJson ndjson) =
       ([EvLog LError (line_report (length good) bad (err_message e)) None;
         EvLog LError (batch_report ndjson (err_message e)) None],
        inl (new_Error (batch_message (err_message e))))) /\
    includes (substring 0 100 bad)
             (line_report (length good) bad (err_message e)) = true /\
    ((length bad <= 100)%nat ->
     includes bad (line_report (length good) bad (err_message e)) = true).
Proof.
  intros Hex.
  destruct (first_malformed _ Hex) as (good & bad & rest & Hlines & Hgood & [e He]).
  exists good, bad, rest, e. split; [done|]. split; [done|]. split; [done|].
  assert (includes (substring 0 100 bad)
            (line_report (length good) bad (err_message e)) = true) as Hinc.
  { unfold line_report. rewrite !(app_assoc _ _ (substring 0 100 bad ++ _)).
    apply includes_middle. }
  split; [|split; [done|]].
  - intros sh. unfold parseNdJson. rewrite Hlines.
    destruct (map_lines_fail good bad rest 0 e Hgood He) as (e' & Hm & ->).
    unfold run. simpl. by rewrite Hm.
  - intros Hlen. revert Hinc.
    change (substring 0 100 bad) with (firstn 100 bad).
    by rewrite (firstn_all2 bad Hlen).
Qed.

(** C9. An input of white space only (empty, blank lines, spaces) gives
    the empty list, and nothing is thrown or logged. *)
Theorem parseNdJson_blank (ndjson : jsstring) :
  all_ws ndjson = true -> parseNdJson ndjson = Ret [].
Proof.
  intros Hws. unfold parseNdJson, ndjson_lines.
  apply trim_nil in Hws as ->. reflexivity.
Qed.

End ParseNdJsonClaims.

Lemma Reference_parse_ignores_outer_whitespace :
  @ignores_outer_whitespace Reference.runtime.
Proof.
  intros s t v Hp. simpl. unfold Reference.parse.
  rewrite (trim_padded s t Hp).
  destruct Hp as (a & b & -> & _ & _).
  unfold Reference.json_spaced. rewrite !forallb_app.
  destruct (forallb _ a); [|done]. destruct (forallb _ t); [|done].
  by destruct (forallb _ b).
Qed.

Lemma parseNdJson_well_formed_witness :
  let ndjson := nl ++ str " true" ++ nl ++ str "  " ++ nl ++ str "{}" ++ nl ++ str "17 " in
  exists records,
    @parseNdJson Reference.runtime ndjson = Ret records /\
    Forall2 (fun line v => @JSON_parse Reference.runtime line = inr v)
            (input_lines ndjson) records /\
    length records = length (List.filter nonblank (split_on 10 ndjson)).
Proof.
  apply (@parseNdJson_well_formed Reference.runtime).
  - apply Reference_parse_ignores_outer_whitespace.
  - change (Forall (@well_formed Reference.runtime) [str " true"; str "{}"; str "17 "]).
    repeat constructor; eexists; reflexivity.
Defined.

Lemma parseNdJson_malformed_witness :
  let ndjson := str "true" ++ nl ++ str "oops" ++ nl ++ str "null" in
  exists good bad rest e,
    @ndjson_lines ndjson = good ++ bad :: rest /\
    Forall (@well_formed Reference.runtime) good /\
    @JSON_parse Reference.runtime bad = inl e /\
    (forall sh,
       run sh (@parseNdJson Reference.runtime ndjson) =
       ([EvLog LError (line_report (length good) bad (err_message e)) None;
         EvLog LError (batch_report ndjson (err_message e)) None],
        inl (new_Error (batch_message (err_message e))))) /\
    includes (substring 0 100 bad)
             (line_report (length good) bad (err_message e)) = true /\
    ((length bad <= 100)%nat ->
     includes bad (line_report (length good) bad (err_message e)) = true).
Proof.
  apply (@parseNdJson_malformed Reference.runtime).
  apply Exists_cons_tl, Exists_cons_hd. eexists. reflexivity.
Defined.

Lemma parseNdJson_blank_witness :
  @parseNdJson Reference.runtime (str "  " ++ nl ++ nl ++ str " ") = Ret [].
Proof. apply (@parseNdJson_blank Reference.runtime). reflexivity. Defined.

(** The claim of C3 as the specification words it fails twice. A
    malformed line of 201 code units is not held by the message of the
    error nor by any logged report, which keep its first 100 and 200 code
    units. And a line made malformed by a no-break space in front, which
    JSON does not take for white space, raises nothing: [trim] removes the
    no-break space before the line is parsed. *)
Lemma parseNdJson_line_not_reported :
  (let line := repeat 120 201 in
   @malformed Reference.runtime line /\
   input_lines line = [line] /\
   exists t e,
     run (Reference.prints []) (@parseNdJson Reference.runtime line) = (t, inl e) /\
     includes line (err_message e) = false /\
     forallb (fun report => negb (includes line report)) (logged t) = true) /\
  (let line := 160 :: str "{}" in
   @malformed Reference.runtime line /\
   input_lines line = [line] /\
   @parseNdJson Reference.runtime line = Ret [VObj []]).
Proof.
  split.
  - split; [eexists; vm_compute; reflexivity|].
    split; [vm_compute; reflexivity|].
    eexists _, _. split; [vm_compute; reflexivity|].
    split; vm_compute; reflexivity.
  - split; [eexists; vm_compute; reflexivity|].
    split; vm_compute; reflexivity.
Qed.

(** ** [runW3Command] *)

Section RunW3Command.
Context `{Runtime}.

Lemma run_from_bind {A B} sh i (p : prog A) (f : A -> prog B) :
  run_from sh i (bind p f) =
  match run_from sh i p with
  | (t, inl e) => (t, inl e)
  | (t, inr a) =>
      let '(t', r) := run_from sh (i + length (spawned t)) (f a) in (t ++ t', r)
  end.
Proof.
  revert i. induction p as [a|e|l m d k IH|c k IH]; intros i; simpl.
  - rewrite Nat.add_0_r. by destruct (run_from sh i (f a)).
  - done.
  - rewrite IH. destruct (run_from sh i k) as [t [e|a]]; [done|]. simpl.
    by destruct (run_from sh (i + length (spawned t)) (f a)).
  - rewrite IH. destruct (run_from sh (S i) (k (sh i c))) as [t [e|a]]; [done|]. simpl.
    rewrite Nat.add_succ_r. simpl.
    by destruct (run_from sh (S (i + length (spawned t))) (f a)).
Qed.

(** A subprocess that succeeds: [runW3Command] returns its output after
    one [EvExec]. *)
Lemma run_runW3Command_ok sh i command stdout stderr :
  sh i (str "w3 " ++ command) = inr (stdout, stderr) ->
  exists t, run_from sh i (runW3Command command) = (t, inr (stdout, stderr)) /\
            spawned t = [str "w3 " ++ command].
Proof.
  intros Hsh. unfold runW3Command. cbn [run_from]. rewrite Hsh.
  destruct stderr as [|c stderr]; simpl; eexists; split; reflexivity.
Qed.

(** A subprocess that fails: [runW3Command] throws the wrapped failure. *)
Lemma run_runW3Command_fail sh i command error :
  sh i (str "w3 " ++ command) = inl error ->
  run_from sh i (runW3Command command) =
  ([EvLog LDebug (str "Executing: " ++ str "w3 " ++ command) None;
    EvExec (str "w3 " ++ command);
    EvLog LError (str "Error executing w3 command '" ++ command ++ str "':") (Some error)],
   inl (new_Error (wrapped_failure command error))).
Proof.
  intros Hsh. unfold runW3Command, wrapped_failure. cbn [run_from]. rewrite Hsh. cbn.
  by destruct (err_stderr error) as [[|c stderr]|].
Qed.

(** C7. When the subprocess exits non-zero or cannot be spawned,
    [runW3Command] throws: no output pair is returned. The message of the
    error wraps the failure message and, when stderr text was captured,
    ends with that text. *)
Theorem runW3Command_failure (sh : shell) (command : jsstring) (error : js_error) :
  sh 0%nat (str "w3 " ++ command) = inl error ->
  exists thrown,
    snd (run sh (runW3Command command)) = inl thrown /\
    includes (err_message error) (err_message thrown) = true /\
    err_message thrown =
      str "Failed to execute 'w3 " ++ command ++ str "': " ++ err_message error ++
      match err_stderr error with
      | Some stderr =>
          if truthy_str stderr then nl ++ str "Stderr: " ++ stderr else []
      | None => []
      end.
Proof.
  intros Hsh. exists (new_Error (wrapped_failure command error)).
  unfold run. rewrite (run_runW3Command_fail _ _ _ _ Hsh).
  split; [done|].
  assert (err_message (new_Error (wrapped_failure command error)) =
          str "Failed to execute 'w3 " ++ command ++ str "': " ++ err_message error ++
          match err_stderr error with
          | Some stderr => if truthy_str stderr then nl ++ str "Stderr: " ++ stderr else []
          | None => []
          end) as ->.
  { cbn [new_Error err_message]. unfold wrapped_failure.
    destruct (err_stderr error) as [[|c stderr]|]; cbn [truthy_str];
      by rewrite ?app_nil_r. }
  split; [|done].
  rewrite !(app_assoc _ _ (err_message error ++ _)). apply includes_middle.
Qed.

End RunW3Command.

Lemma runW3Command_failure_witness :
  exists thrown,
    snd (run (Reference.fails (str "Command failed: w3 up") (str "no space"))
             (@runW3Command (str "up"))) = inl thrown /\
    includes (str "Command failed: w3 up") (err_message thrown) = true /\
    err_message thrown =
      str "Failed to execute 'w3 " ++ str "up" ++ str "': " ++ str "Command failed: w3 up" ++
      nl ++ str "Stderr: " ++ str "no space".
Proof.
  apply (runW3Command_failure
           (Reference.fails (str "Command failed: w3 up") (str "no space"))
           (str "up")
           (mkError ClsError (str "Command failed: w3 up") (Some (str "no space")) None)).
  reflexivity.
Defined.

(** ** The space listing *)

Lemma space_ls_step_app spaces line :
  space_ls_step spaces line = spaces ++ line_records line.
Proof.
  unfold line_records, space_ls_step.
  destruct (negb (truthy_str (trim line))); [by rewrite app_nil_r|].
  destruct (startsWith (str "*") (trim line));
    (destruct (split_ws _) as [|did parts]; [by rewrite app_nil_r|];
     destruct (truthy_str did && startsWith (str "did:key:") did);
     [done|by rewrite app_nil_r]).
Qed.

Lemma space_ls_loop lines spaces :
  fold_left space_ls_step lines spaces = spaces ++ flat_map line_records lines.
Proof.
  revert spaces. induction lines as [|line lines IH]; intros spaces; simpl.
  - by rewrite app_nil_r.
  - by rewrite IH, space_ls_step_app, <- app_assoc.
Qed.

(** What a line gives: nothing, or one record made of the tokens of the
    unstarred text. *)
Lemma line_records_spec line r :
  r ∈ line_records line ->
  exists tokens,
    split_ws (unstarred line) = did r :: tokens /\
    startsWith (str "did:key:") (did r) = true /\
    name r = (if (1 <? length (did r :: tokens))%nat
              then Some (join (str " ") tokens) else None) /\
    isCurrent r = startsWith (str "*") (trim line).
Proof.
  unfold line_records, space_ls_step, unstarred.
  destruct (negb (truthy_str (trim line))); [by intros ?%elem_of_nil|].
  destruct (startsWith (str "*") (trim line));
    (destruct (split_ws _) as [|d tokens] eqn:Hparts; [by intros ?%elem_of_nil|];
     destruct (truthy_str d && startsWith (str "did:key:") d) eqn:Hd;
     [|by intros ?%elem_of_nil];
     intros ->%list_elem_of_singleton; exists tokens;
     apply andb_prop in Hd as [_ Hd]; done).
Qed.

Lemma line_records_none line :
  startsWith (str "did:key:") (first_token (unstarred line)) = false ->
  line_records line = [].
Proof.
  unfold line_records, space_ls_step, unstarred, first_token.
  destruct (negb (truthy_str (trim line))); [done|].
  destruct (startsWith (str "*") (trim line));
    (destruct (split_ws _) as [|d tokens]; [done|]; cbn [hd]; intros ->;
     by rewrite andb_false_r).
Qed.

Section SpaceLs.
Context `{Runtime}.

(** What the handler answers when the subprocess succeeds. *)
Lemma handleW3SpaceLs_run sh props stdout stderr :
  sh 0%nat (str "w3 space ls") = inr (stdout, stderr) ->
  snd (run sh (handleW3SpaceLs (VObj props))) =
  inr (reply [(str "spaces",
               VArr (List.map space_value
                       (flat_map line_records (split_on 10 (trim stdout)))))]).
Proof.
  intros Hsh. unfold handleW3SpaceLs, run.
  change (safeParse Schemas.W3SpaceLsArgsSchema (VObj props)) with (@inr (list zod_issue) _ tt).
  cbv beta iota. unfold mbind, prog_bind. rewrite run_from_bind.
  destruct (run_runW3Command_ok sh 0 (str "space ls") stdout stderr Hsh) as (t & -> & _).
  cbn [run_from]. by rewrite space_ls_loop.
Qed.

(** C5. When the subprocess prints the one line [did:key:abc  my-space],
    the handler answers exactly one record: that DID, the name [my-space],
    not current. *)
Theorem handleW3SpaceLs_one_space sh props stderr :
  sh 0%nat (str "w3 space ls") = inr (str "did:key:abc  my-space" ++ nl, stderr) ->
  snd (run sh (handleW3SpaceLs (VObj props))) =
  inr (reply [(str "spaces",
               VArr [VObj [(str "did", VStr (str "did:key:abc"));
                           (str "name", VStr (str "my-space"));
                           (str "isCurrent", VBool false)]])]).
Proof. intros Hsh. by rewrite (handleW3SpaceLs_run _ _ _ _ Hsh). Qed.

(** What a starred line yields: the star is dropped, the rest is trimmed
    and cut at white space; the first token is the DID and the others,
    joined by single spaces, the name. *)
Lemma line_records_starred line :
  startsWith (str "*") (trim line) = true ->
  line_records line =
    match split_ws (trim (substring_from 1 (trim line))) with
    | did :: tokens =>
        if startsWith (str "did:key:") did
        then [mkSpace did
                (match tokens with [] => None | _ => Some (join (str " ") tokens) end)
                true]
        else []
    | [] => []
    end.
Proof.
  intros Hstar. unfold line_records, space_ls_step. rewrite Hstar.
  destruct (trim line) as [|c0 t] eqn:Htrim; [done|]. cbn [truthy_str negb].
  destruct (split_ws _) as [|d tokens]; [done|].
  destruct d as [|c d]; [done|]. cbn [truthy_str andb app].
  destruct (startsWith (str "did:key:") (c :: d)); [|done].
  by destruct tokens.
Qed.

(** C6. A line of the listing that begins with a star once trimmed gives,
    at its place in the answer, the record made of the text that follows
    the star: the first token is the DID, the other tokens joined by
    single spaces are the name, and [isCurrent] is true. (The record is
    there when that DID starts with [did:key:].) *)
Theorem handleW3SpaceLs_starred sh props stdout stderr before line after :
  sh 0%nat (str "w3 space ls") = inr (stdout, stderr) ->
  split_on 10 (trim stdout) = before ++ line :: after ->
  startsWith (str "*") (trim line) = true ->
  snd (run sh (handleW3SpaceLs (VObj props))) =
    inr (reply
           [(str "spaces",
             VArr (List.map space_value
                     (flat_map line_records before ++
                      match split_ws (trim (substring_from 1 (trim line))) with
                      | did :: tokens =>
                          if startsWith (str "did:key:") did
                          then [mkSpace did
                                  (match tokens with
                                   | [] => None
                                   | _ => Some (join (str " ") tokens)
                                   end)
                                  true]
                          else []
                      | [] => []
                      end ++
                      flat_map line_records after)))]).
Proof.
  intros Hsh Hlines Hstar.
  rewrite (handleW3SpaceLs_run _ _ _ _ Hsh), Hlines, flat_map_app.
  cbn [flat_map]. by rewrite (line_records_starred line Hstar).
Qed.

(** C8, as the code has it. Every record the handler answers has a DID
    that starts with [did:key:]; a line gives no record when the first
    token of its text, the leading star removed if there is one, does not
    start with [did:key:]. *)
Theorem handleW3SpaceLs_did_key sh props stdout stderr :
  sh 0%nat (str "w3 space ls") = inr (stdout, stderr) ->
  exists spaces,
    snd (run sh (handleW3SpaceLs (VObj props))) =
      inr (reply [(str "spaces", VArr (List.map space_value spaces))]) /\
    spaces = flat_map line_records (split_on 10 (trim stdout)) /\
    (forall r, r ∈ spaces -> startsWith (str "did:key:") (did r) = true) /\
    (forall line,
       startsWith (str "did:key:") (first_token (unstarred line)) = false ->
       line_records line = []).
Proof.
  intros Hsh. eexists. split; [by apply handleW3SpaceLs_run with stderr|].
  split; [done|]. split; [|apply line_records_none].
  intros r (line & _ & Hr)%list_elem_of_In%in_flat_map.
  apply list_elem_of_In in Hr.
  by destruct (line_records_spec line r Hr) as (tokens & _ & Hdid & _).
Qed.

End SpaceLs.

Lemma handleW3SpaceLs_one_space_witness :
  snd (run (Reference.prints (str "did:key:abc  my-space" ++ nl))
           (@handleW3SpaceLs Reference.runtime (VObj []))) =
  inr (@reply Reference.runtime
         [(str "spaces",
           VArr [VObj [(str "did", VStr (str "did:key:abc"));
                       (str "name", VStr (str "my-space"));
                       (str "isCurrent", VBool false)]])]).
Proof.
  apply (@handleW3SpaceLs_one_space Reference.runtime
           (Reference.prints (str "did:key:abc  my-space" ++ nl)) [] []).
  reflexivity.
Defined.

Lemma handleW3SpaceLs_starred_witness :
  let stdout := str "  did:key:one" ++ nl ++ str "* did:key:abc  home base" ++ nl in
  snd (run (Reference.prints stdout) (@handleW3SpaceLs Reference.runtime (VObj []))) =
    inr (@reply Reference.runtime
           [(str "spaces",
             VArr [VObj [(str "did", VStr (str "did:key:one"));
                         (str "name", VUndefined);
                         (str "isCurrent", VBool false)];
                   VObj [(str "did", VStr (str "did:key:abc"));
                         (str "name", VStr (str "home base"));
                         (str "isCurrent", VBool true)]])]).
Proof.
  intros stdout.
  apply (@handleW3SpaceLs_starred Reference.runtime (Reference.prints stdout) [] stdout []
           [str "did:key:one"] (str "* did:key:abc  home base") []);
    reflexivity.
Defined.

Lemma handleW3SpaceLs_did_key_witness :
  let stdout := str "* did:key:abc home base" ++ nl ++ str "Spaces: none" ++ nl in
  exists spaces,
    snd (run (Reference.prints stdout) (@handleW3SpaceLs Reference.runtime (VObj []))) =
      inr (@reply Reference.runtime [(str "spaces", VArr (List.map space_value spaces))]) /\
    spaces = flat_map line_records (split_on 10 (trim stdout)) /\
    (forall r, r ∈ spaces -> startsWith (str "did:key:") (did r) = true) /\
    (forall line,
       startsWith (str "did:key:") (first_token (unstarred line)) = false ->
       line_records line = []).
Proof.
  intros stdout.
  apply (@handleW3SpaceLs_did_key Reference.runtime (Reference.prints stdout) [] stdout []).
  reflexivity.
Defined.

(** The claim of C8 as the specification words it fails on a starred
    line: the first white-space-separated token of the line is the star,
    which does not start with [did:key:], and the line still gives a
    record. *)
Lemma handleW3SpaceLs_starred_line_kept :
  let line := str "* did:key:abc home" in
  startsWith (str "did:key:") (first_token line) = false /\
  first_token (trim line) = str "*" /\
  snd (run (Reference.prints (line ++ nl)) (@handleW3SpaceLs Reference.runtime (VObj []))) =
  inr (@reply Reference.runtime
         [(str "spaces",
           VArr [space_value (mkSpace (str "did:key:abc") (Some (str "home")) true)])]).
Proof. repeat split; vm_compute; reflexivity. Qed.

(** ** Subprocesses of a program *)

Create HintDb spawn.
#[export] Hint Constructors silent spawns_once : spawn.

Lemma silent_bind {A B} (p : prog A) (f : A -> prog B) :
  silent p -> (forall a, silent (f a)) -> silent (bind p f).
Proof. induction 1; simpl; auto with spawn. Qed.

Lemma silent_try_catch {A} (p : prog A) h :
  silent p -> (forall e, silent (h e)) -> silent (try_catch p h).
Proof. induction 1; simpl; auto with spawn. Qed.

Lemma once_bind {A B} (p : prog A) (f : A -> prog B) :
  spawns_once p -> (forall a, silent (f a)) -> spawns_once (bind p f).
Proof.
  induction 1; intros Hf; simpl; [auto with spawn|].
  constructor. intros r. by apply silent_bind.
Qed.

Lemma once_try_catch {A} (p : prog A) h :
  spawns_once p -> (forall e, silent (h e)) -> spawns_once (try_catch p h).
Proof.
  induction 1; intros Hh; simpl; [auto with spawn|].
  constructor. intros r. by apply silent_try_catch.
Qed.

Lemma silent_run {A} (p : prog A) sh i :
  silent p -> spawned (fst (run_from sh i p)) = [].
Proof.
  induction 1; simpl; try done.
  by destruct (run_from sh i k).
Qed.

Lemma once_run {A} (p : prog A) sh i :
  spawns_once p -> length (spawned (fst (run_from sh i p))) = 1%nat.
Proof.
  intros Hp. revert i. induction Hp as [l m d k _ IH|c k Hk]; intros i; simpl.
  - specialize (IH i). by destruct (run_from sh i k).
  - pose proof (silent_run (k (sh i c)) sh (S i) (Hk _)) as Hs.
    destruct (run_from sh (S i) (k (sh i c))). simpl in *. by rewrite Hs.
Qed.

Lemma once_after_log {A} l m (f : unit -> prog A) :
  spawns_once (f tt) -> spawns_once (bind (log l m) f).
Proof. intros Hf. simpl. by constructor. Qed.

Section Spawns.
Context `{Runtime}.

Lemma silent_log_unit l m : silent (log l m).
Proof. repeat constructor. Qed.

Lemma runW3Command_once command : spawns_once (runW3Command command).
Proof.
  unfold runW3Command. constructor. constructor.
  intros [error|[stdout stderr]].
  - repeat constructor.
  - unfold mbind, prog_bind. destruct (truthy_str stderr); repeat constructor.
Qed.

Lemma parse_line_silent line index : silent (parse_line line index).
Proof.
  unfold parse_line. destruct (JSON_parse line); repeat constructor.
Qed.

Lemma map_lines_silent lines index : silent (map_lines lines index).
Proof.
  revert index. induction lines as [|line lines IH]; intros index; simpl.
  - constructor.
  - apply silent_bind; [apply parse_line_silent|]. intros v.
    apply silent_bind; [apply IH|]. intros vs. constructor.
Qed.

Lemma parseNdJson_silent ndjson : silent (parseNdJson ndjson).
Proof.
  unfold parseNdJson. apply silent_try_catch; [apply map_lines_silent|].
  intros e. repeat constructor.
Qed.

End Spawns.

#[export] Hint Resolve silent_log_unit runW3Command_once parseNdJson_silent : spawn.

(** One step of the analysis of a handler body. *)
Ltac spawn_step :=
  match goal with
  | |- forall _, _ => intro
  | |- silent (Ret _) => constructor
  | |- silent (Throw _) => constructor
  | |- silent (invalid_arguments _ _) => constructor
  | |- silent (Log _ _ _ _) => constructor
  | |- silent (log _ _) => apply silent_log_unit
  | |- silent (parseNdJson _) => apply parseNdJson_silent
  | |- spawns_once (runW3Command _) => apply runW3Command_once
  | |- silent (mbind _ _) => apply silent_bind
  | |- silent (bind _ _) => apply silent_bind
  | |- silent (try_catch _ _) => apply silent_try_catch
  | |- spawns_once (mbind _ (log _ _)) => apply once_after_log
  | |- spawns_once (mbind _ _) => apply once_bind
  | |- spawns_once (bind _ _) => apply once_bind
  | |- spawns_once (try_catch _ _) => apply once_try_catch
  | |- silent (let '(_, _) := ?x in _) => destruct x
  | |- silent (match ?x with _ => _ end) => destruct x
  | |- spawns_once (match ?x with _ => _ end) => destruct x
  end.

(** The constant at the head of an application. *)
Ltac head_of t :=
  match t with
  | ?f _ => head_of f
  | _ => t
  end.

Ltac spawn_analysis := cbv zeta; repeat spawn_step.

(** ** Tools, schemas and handlers side by side *)

Lemma insert_by_name_perm {A} (e : jsstring * A) l : insert_by_name e l ≡ₚ e :: l.
Proof.
  induction l as [|e' l IH]; simpl; [done|].
  destruct (code_units_leb (fst e) (fst e')); [done|].
  rewrite IH. apply Permutation_swap.
Qed.

Lemma sort_by_name_perm {A} (l : list (jsstring * A)) : sort_by_name l ≡ₚ l.
Proof.
  induction l as [|e l IH]; simpl; [done|].
  by rewrite insert_by_name_perm, IH.
Qed.

Lemma exports_declared : Schemas.exports ≡ₚ Schemas.declared.
Proof. apply sort_by_name_perm. Qed.

Lemma filter_all {A} (P : A -> bool) l :
  Forall (fun x => P x = true) l -> List.filter P l = l.
Proof. induction 1 as [|x l Hx _ IH]; simpl; [done|]. by rewrite Hx, IH. Qed.

(** Every export is named [...ArgsSchema]: the filter keeps them all. *)
Lemma listed_schemas_all : listed_schemas = Schemas.exports.
Proof.
  apply filter_all. rewrite exports_declared.
  unfold Schemas.declared. repeat constructor.
Qed.

(** The listing holds the declared schemas, whatever its order. *)
Lemma listed_schemas_declared entry :
  entry ∈ listed_schemas <-> entry ∈ Schemas.declared.
Proof. by rewrite listed_schemas_all, exports_declared. Qed.

(** Two tables in the same order, the keys of the second mapped onto the
    keys of the first: what holds of the rows side by side holds of any
    two rows with matching keys. *)
Lemma aligned_rows {A B} (f : jsstring -> jsstring) (P : jsstring -> A -> B -> Prop)
    (hs : list (jsstring * A)) (ss : list (jsstring * B)) :
  Forall2 (fun h s => f (fst s) = fst h /\ P (fst h) (snd h) (snd s)) hs ss ->
  NoDup (List.map fst hs) ->
  forall name a sname b,
    (name, a) ∈ hs -> (sname, b) ∈ ss -> f sname = name -> P name a b.
Proof.
  induction 1 as [|[n h] [sn s] hs ss [Hkey HP] Hrest IH]; intros Hnodup name a sname b Hh Hs Hf.
  - by apply elem_of_nil in Hh.
  - simpl in *. apply NoDup_cons in Hnodup as [Hfresh Hnodup].
    assert (forall x y, (x, y) ∈ ss -> f x ∈ List.map fst hs) as Hkeys.
    { clear -Hrest. induction Hrest as [|[n' h'] [sn' s'] hs' ss' [Hk _] _ IH'];
        intros x y Hxy; [by apply elem_of_nil in Hxy|].
      simpl in *. apply elem_of_cons in Hxy as [[= -> ->]|Hxy].
      - rewrite Hk. left.
      - right. eauto. }
    apply elem_of_cons in Hh as [[= -> ->]|Hh];
      apply elem_of_cons in Hs as [[= -> ->]|Hs].
    + done.
    + destruct Hfresh. rewrite <- Hf. eauto.
    + destruct Hfresh. rewrite <- Hkey, Hf.
      apply list_elem_of_fmap. by exists (name, a).
    + eauto.
Qed.

Section Tables.
Context `{Runtime}.

Lemma toolHandlers_names :
  List.map fst toolHandlers_entries
  = List.map (fun entry => toolName (fst entry)) Schemas.declared.
Proof. reflexivity. Qed.

Lemma listed_tool_names_perm : listed_tool_names ≡ₚ List.map fst toolHandlers_entries.
Proof.
  unfold listed_tool_names.
  rewrite toolHandlers_names, listed_schemas_all.
  apply Permutation_map, exports_declared.
Qed.

Lemma toolHandlers_NoDup : NoDup (List.map fst toolHandlers_entries).
Proof. rewrite toolHandlers_names. apply (bool_decide_unpack _). by vm_compute. Qed.

Lemma toolHandlers_lookup name handler :
  toolHandlers !! name = Some handler <-> (name, handler) ∈ toolHandlers_entries.
Proof.
  unfold toolHandlers. split.
  - apply elem_of_list_to_map_2.
  - apply elem_of_list_to_map_1, toolHandlers_NoDup.
Qed.

Lemma toolHandlers_login : toolHandlers !! str "w3_login" = Some handleW3Login.
Proof. apply toolHandlers_lookup. apply list_elem_of_here. Qed.

Lemma toolHandlers_space_create :
  toolHandlers !! str "w3_space_create" = Some handleW3SpaceCreate.
Proof.
  apply toolHandlers_lookup. unfold toolHandlers_entries.
  do 3 apply list_elem_of_further. apply list_elem_of_here.
Qed.

Lemma toolHandlers_open : toolHandlers !! str "w3_open" = Some handleW3Open.
Proof.
  apply toolHandlers_lookup. unfold toolHandlers_entries.
  do 7 apply list_elem_of_further. apply list_elem_of_here.
Qed.

End Tables.

(** ** The tools that are advertised and the tools that are handled *)

Section Catalogue.
Context `{Runtime}.

(** C10. The tool names derived from the names of the exported schemas
    are exactly the keys of [toolHandlers]: a name is advertised if and
    only if it has a handler. *)
Theorem listed_tools_are_handled :
  (list_to_set listed_tool_names : gset jsstring) = dom toolHandlers /\
  forall name, name ∈ listed_tool_names <-> is_Some (toolHandlers !! name).
Proof.
  assert ((list_to_set listed_tool_names : gset jsstring) = dom toolHandlers) as Hdom.
  { unfold toolHandlers. rewrite dom_list_to_map_L.
    apply set_eq. intros name. rewrite !elem_of_list_to_set.
    by rewrite listed_tool_names_perm. }
  split; [done|]. intros name.
  by rewrite <- elem_of_dom, <- Hdom, elem_of_list_to_set.
Qed.

End Catalogue.

(** ** Argument validation *)

Section Validation.
Context `{Runtime}.

Ltac reject_case :=
  intros Hlogin Hcreate args issues Hparse;
  cbn [Schemas.the_schema Schemas.out_type] in Hparse;
  first [ done
        | match goal with |- ?lhs = _ => let h := head_of lhs in unfold h end;
          by rewrite Hparse ].

Lemma handlers_reject_invalid :
  Forall2 (fun h s => toolName (fst s) = fst h /\ rejects_invalid (fst h) (snd h) (snd s))
          toolHandlers_entries Schemas.declared.
Proof.
  unfold toolHandlers_entries, Schemas.declared.
  repeat (apply List.Forall2_cons; [split; [reflexivity|cbn [fst snd]; reject_case]|]).
  apply List.Forall2_nil.
Qed.

Lemma callTool_throw sh name handler args e :
  toolHandlers !! name = Some handler -> handler args = Throw e ->
  run sh (callTool name args) =
  ([EvLog LInfo (str "Handling CallTool request for: " ++ name) None;
    EvLog LError (str "Error handling tool '" ++ name ++ str "':") (Some e)],
   inr (error_response (err_message e))).
Proof.
  intros Hh He. unfold callTool, run, mbind, prog_bind, log.
  cbn [bind run_from]. by rewrite Hh, He.
Qed.

(** C1, as the code has it. For every tool other than [w3_login] and
    every argument bag the schema of the tool rejects, the handler throws
    before any subprocess is started, and the caller gets an error
    response. The error is the validation error of the tool, except for
    [w3_space_create], whose handler throws its refusal whatever the
    arguments. *)
Theorem invalid_arguments_rejected name handler sname S args issues sh :
  toolHandlers !! name = Some handler ->
  (sname, S) ∈ listed_schemas -> toolName sname = name ->
  safeParse (Schemas.the_schema S) args = inl issues ->
  name <> str "w3_login" ->
  exists message,
    handler args = Throw (new_Error message) /\
    (name <> str "w3_space_create" ->
     message = str "Invalid arguments for " ++ name ++ str ": " ++ zod_error_message issues) /\
    (name = str "w3_space_create" -> message = space_create_refusal) /\
    spawned (fst (run sh (handler args))) = [] /\
    spawned (fst (run sh (callTool name args))) = [] /\
    snd (run sh (callTool name args)) = inr (error_response message).
Proof.
  intros Hh Hs%listed_schemas_declared Hname Hparse Hlogin.
  assert (exists message,
             handler args = Throw (new_Error message) /\
             (name <> str "w3_space_create" ->
              message = str "Invalid arguments for " ++ name ++ str ": " ++
                        zod_error_message issues) /\
             (name = str "w3_space_create" -> message = space_create_refusal))
    as (message & Hthrow & Hvalid & Hrefuse).
  { destruct (decide (name = str "w3_space_create")) as [->|Hcreate].
    - exists space_create_refusal.
      rewrite toolHandlers_space_create in Hh. injection Hh as <-.
      split; [reflexivity|]. split; [intros Hne; by destruct Hne|reflexivity].
    - eexists. split; [|split; [reflexivity|intros Heq; by destruct Hcreate]].
      apply toolHandlers_lookup in Hh.
      exact (aligned_rows toolName rejects_invalid _ _ handlers_reject_invalid
               toolHandlers_NoDup name handler sname S Hh Hs Hname Hlogin Hcreate
               args issues Hparse). }
  exists message.
  split; [exact Hthrow|]. split; [exact Hvalid|]. split; [exact Hrefuse|].
  rewrite (callTool_throw sh name handler args _ Hh Hthrow), Hthrow.
  repeat split.
Qed.

End Validation.

Lemma invalid_arguments_rejected_witness :
  let args := VObj [(str "paths", VArr [])] in
  let issues := [mkIssue (too_small_array 1) [PKey (str "paths")]] in
  let sh := Reference.prints [] in
  exists message,
    @handleW3Up Reference.runtime args = Throw (new_Error message) /\
    (str "w3_up" <> str "w3_space_create" ->
     message = str "Invalid arguments for " ++ str "w3_up" ++ str ": " ++
               @zod_error_message Reference.runtime issues) /\
    (str "w3_up" = str "w3_space_create" -> message = space_create_refusal) /\
    spawned (fst (run sh (@handleW3Up Reference.runtime args))) = [] /\
    spawned (fst (run sh (@callTool Reference.runtime (str "w3_up") args))) = [] /\
    snd (run sh (@callTool Reference.runtime (str "w3_up") args)) =
      inr (@error_response Reference.runtime message).
Proof.
  intros args issues sh.
  apply (@invalid_arguments_rejected Reference.runtime (str "w3_up") handleW3Up
           (str "W3UpArgsSchema") (Schemas.AnySchema Schemas.W3UpArgsSchema) args issues sh).
  - apply toolHandlers_lookup. unfold toolHandlers_entries.
    do 4 apply list_elem_of_further. apply list_elem_of_here.
  - apply listed_schemas_declared. unfold Schemas.declared.
    do 4 apply list_elem_of_further. apply list_elem_of_here.
  - reflexivity.
  - reflexivity.
  - intros Heq. vm_compute in Heq. discriminate.
Defined.

(** The claim of C1 as the specification words it fails on two tools.
    [w3_space_create]: the schema rejects a name that is a number, and the
    handler throws its refusal, which is not the validation error.
    [w3_login]: the schema rejects [undefined], the argument bag of a
    request without arguments, and the handler runs [w3 login] all the
    same. *)
Lemma validation_skipped_by_two_handlers :
  let sh := Reference.prints [] in
  (exists issues,
     safeParse Schemas.W3SpaceCreateArgsSchema (VObj [(str "name", VNum (Qmake 5 1))])
     = inl issues /\
     @handleW3SpaceCreate (VObj [(str "name", VNum (Qmake 5 1))])
     = Throw (new_Error space_create_refusal) /\
     startsWith (str "Invalid arguments for") space_create_refusal = false) /\
  (exists issues,
     safeParse Schemas.W3LoginArgsSchema VUndefined = inl issues /\
     spawned (fst (run sh (@handleW3Login Reference.runtime VUndefined)))
     = [str "w3 login user@example.com"] /\
     exists answer, snd (run sh (@handleW3Login Reference.runtime VUndefined)) = inr answer).
Proof.
  split.
  - eexists. split; [reflexivity|]. split; [reflexivity|]. vm_compute. reflexivity.
  - eexists. split; [reflexivity|]. split; [vm_compute; reflexivity|].
    eexists. vm_compute. reflexivity.
Qed.

(** ** One subprocess per call *)

Section OneSubprocess.
Context `{Runtime}.

Ltac spawn_case :=
  intros args; unfold accepts; cbn [Schemas.the_schema Schemas.out_type];
  match goal with
  | |- spawn_shape (expected_spawns ?name _) (?call) =>
      let h := head_of call in
      let n1 := eval vm_compute in (expected_spawns name true) in
      let n0 := eval vm_compute in (expected_spawns name false) in
      unfold h;
      destruct (safeParse _ args) as [issues|data];
      [ change (expected_spawns name false) with n0
      | change (expected_spawns name true) with n1 ];
      cbv beta iota delta [spawn_shape]; spawn_analysis
  end.

Lemma handlers_spawn_as_expected :
  Forall2 (fun h s => toolName (fst s) = fst h /\ spawns_as_expected (fst h) (snd h) (snd s))
          toolHandlers_entries Schemas.declared.
Proof.
  unfold toolHandlers_entries, Schemas.declared.
  repeat (apply List.Forall2_cons; [split; [reflexivity|cbn [fst snd]; spawn_case]|]).
  apply List.Forall2_nil.
Qed.

End OneSubprocess.

Section OneSubprocessClaim.
Context `{Runtime}.

Lemma expected_spawns_le_1 name valid : (expected_spawns name valid <= 1)%nat.
Proof.
  unfold expected_spawns.
  repeat (destruct (decide _); [lia|]). destruct valid; lia.
Qed.

(** C4, as the code has it. A call of a handler starts at most one
    subprocess, and returns or throws only after that subprocess has
    settled. It starts exactly one for [w3_login], and for every tool
    other than [w3_open] and [w3_space_create] when the arguments satisfy
    the schema of the tool; it starts none for [w3_open], for
    [w3_space_create] and for arguments the schema rejects. *)
Theorem one_subprocess_at_most name handler sname S args sh :
  toolHandlers !! name = Some handler ->
  (sname, S) ∈ listed_schemas -> toolName sname = name ->
  length (spawned (fst (run sh (handler args)))) = expected_spawns name (accepts S args) /\
  (expected_spawns name (accepts S args) <= 1)%nat /\
  (silent (handler args) \/ spawns_once (handler args)).
Proof.
  intros Hh%toolHandlers_lookup Hs%listed_schemas_declared Hname.
  pose proof (aligned_rows toolName spawns_as_expected _ _ handlers_spawn_as_expected
                toolHandlers_NoDup name handler sname S Hh Hs Hname args) as Hshape.
  pose proof (expected_spawns_le_1 name (accepts S args)) as Hle.
  destruct (expected_spawns name (accepts S args)) as [|[|k]]; simpl in Hshape; [| |lia].
  - split; [|auto]. unfold run. by rewrite silent_run.
  - split; [|auto]. unfold run. by rewrite once_run.
Qed.

End OneSubprocessClaim.

Lemma one_subprocess_at_most_witness :
  let args := VObj [(str "paths", VArr [VStr (str "/data/report.pdf")])] in
  let sh := Reference.prints (str "bafybeigdyr") in
  let S := Schemas.AnySchema Schemas.W3UpArgsSchema in
  length (spawned (fst (run sh (@handleW3Up Reference.runtime args)))) =
    expected_spawns (str "w3_up") (accepts S args) /\
  (expected_spawns (str "w3_up") (accepts S args) <= 1)%nat /\
  (silent (@handleW3Up Reference.runtime args) \/
   spawns_once (@handleW3Up Reference.runtime args)).
Proof.
  intros args sh S.
  apply (@one_subprocess_at_most Reference.runtime (str "w3_up") handleW3Up
           (str "W3UpArgsSchema") S args sh).
  - apply toolHandlers_lookup. unfold toolHandlers_entries.
    do 4 apply list_elem_of_further. apply list_elem_of_here.
  - apply listed_schemas_declared. unfold Schemas.declared.
    do 4 apply list_elem_of_further. apply list_elem_of_here.
  - reflexivity.
Defined.

(** The claim of C4 as the specification words it fails on [w3_open]: the
    handler accepts the arguments, answers the URL and starts no
    subprocess. *)
Lemma handleW3Open_spawns_nothing :
  let args := VObj [(str "cid", VStr (str "bafybeigdyr"))] in
  @toolHandlers Reference.runtime !! str "w3_open" = Some (@handleW3Open Reference.runtime) /\
  run (Reference.prints []) (@handleW3Open Reference.runtime args) =
  ([], inr (@reply Reference.runtime
              [(str "message",
                VStr (str "To view the content, open this URL in your browser: https://w3s.link/ipfs/bafybeigdyr"));
               (str "url", VStr (str "https://w3s.link/ipfs/bafybeigdyr"))])).
Proof. split; [apply toolHandlers_open|]. vm_compute. reflexivity. Qed.

(** ** The handlers on examples *)

Example handleW3Up_command :
  spawned (fst (run (Reference.prints (str "bafybeigdyr"))
                    (@handleW3Up Reference.runtime
                       (VObj [(str "paths", VArr [VStr (str "/data/report.pdf")]);
                              (str "hidden", VBool true)]))))
  = [str "w3 up " ++ dq ++ str "/data/report.pdf" ++ dq ++ str " --hidden"].
Proof. vm_compute. reflexivity. Qed.

Example handleW3Rm_command :
  spawned (fst (run (Reference.prints [])
                    (@handleW3Rm Reference.runtime
                       (VObj [(str "cid", VStr (str "bafy1")); (str "removeShards", VBool true)]))))
  = [str "w3 rm bafy1 --shards"].
Proof. vm_compute. reflexivity. Qed.

Example handleW3Ls_uploads :
  snd (run (Reference.prints (str "{}" ++ nl ++ str "{}" ++ nl))
           (@handleW3Ls Reference.runtime (VObj [])))
  = inr (@reply Reference.runtime [(str "uploads", VArr [VObj []; VObj []])]).
Proof. vm_compute. reflexivity. Qed.

Example handleW3CanBlobAdd_stored :
  snd (run (Reference.prints (str "Stored zQm1 (bafk2)" ++ nl))
           (@handleW3CanBlobAdd Reference.runtime (VObj [(str "path", VStr (str "/tmp/blob"))])))
  = inr (@reply Reference.runtime
           [(str "message", VStr (str "Blob added successfully."));
            (str "multihash", VStr (str "zQm1"));
            (str "cid", VStr (str "bafk2"));
            (str "output", VStr (str "Stored zQm1 (bafk2)"))]).
Proof. vm_compute. reflexivity. Qed.

Example callTool_unknown :
  snd (run (Reference.prints []) (@callTool Reference.runtime (str "w3_nope") (VObj [])))
  = inr (@error_response Reference.runtime (str "Unknown tool: w3_nope")).
Proof. vm_compute. reflexivity. Qed.

Example reference_parse_nbsp :
  exists e, Reference.parse (160 :: str "true") = inl e.
Proof. eexists. vm_compute. reflexivity. Qed.

(** * Further properties of the code *)

(** ** The dispatcher *)

Section DispatcherRuns.
Context `{Runtime}.

Lemma run_from_try_catch {A} sh i (p : prog A) (h : js_error -> prog A) :
  run_from sh i (try_catch p h) =
  match run_from sh i p with
  | (t, inr a) => (t, inr a)
  | (t, inl e) =>
      let '(t', r) := run_from sh (i + length (spawned t)) (h e) in (t ++ t', r)
  end.
Proof.
  revert i. induction p as [a|e|l m d k IH|c k IH]; intros i; simpl.
  - done.
  - rewrite Nat.add_0_r. by destruct (run_from sh i (h e)).
  - rewrite IH. destruct (run_from sh i k) as [t [e|a]]; [|done]. simpl.
    by destruct (run_from sh (i + length (spawned t)) (h e)).
  - rewrite IH. destruct (run_from sh (S i) (k (sh i c))) as [t [e|a]]; [|done]. simpl.
    rewrite Nat.add_succ_r. simpl.
    by destruct (run_from sh (S (i + length (spawned t))) (h e)).
Qed.

Lemma spawned_app t t' : spawned (t ++ t') = spawned t ++ spawned t'.
Proof.
  induction t as [|[l m d|c] t IH]; simpl; [done|done|by rewrite IH].
Qed.

(** What a request for a tool that has a handler gives, from what the
    handler gives. *)
Lemma callTool_known sh name handler args :
  toolHandlers !! name = Some handler ->
  spawned (fst (run sh (callTool name args))) = spawned (fst (run sh (handler args))) /\
  snd (run sh (callTool name args)) =
    match snd (run sh (handler args)) with
    | inr answer => inr answer
    | inl error => inr (error_response (err_message error))
    end.
Proof.
  intros Hh. unfold callTool, run, mbind, prog_bind, log.
  cbn [bind run_from]. rewrite Hh, run_from_try_catch.
  destruct (run_from sh 0 (handler args)) as [t [e|a]]; cbn; [|done].
  rewrite spawned_app. cbn. by rewrite app_nil_r.
Qed.

Lemma callTool_unknown_run sh name args :
  toolHandlers !! name = None ->
  run sh (callTool name args) =
  ([EvLog LInfo (str "Handling CallTool request for: " ++ name) None;
    EvLog LError (str "Unknown tool requested: " ++ name) None],
   inr (error_response (str "Unknown tool: " ++ name))).
Proof.
  intros Hh. unfold callTool, run, mbind, prog_bind, log.
  cbn [bind run_from]. unfold ToolHandler in *. by rewrite Hh.
Qed.

(** X1. The dispatcher never throws. A request for a tool with a handler
    is answered by the response of the handler, unchanged, or, when the
    handler throws, by an error response that carries the message of the
    error; a request for a name without a handler is answered by an error
    response. In every case a response is returned. *)
Theorem callTool_always_answers sh name args :
  name ∉ Object_prototype_names ->
  exists answer,
    snd (run sh (callTool name args)) = inr answer /\
    match toolHandlers !! name with
    | Some handler =>
        match snd (run sh (handler args)) with
        | inr handled => answer = handled
        | inl error => answer = error_response (err_message error)
        end
    | None => answer = error_response (str "Unknown tool: " ++ name)
    end.
Proof.
  intros _. destruct (toolHandlers !! name) as [handler|] eqn:Hh.
  - destruct (callTool_known sh name handler args Hh) as [_ ->].
    destruct (snd (run sh (handler args))); eauto.
  - rewrite (callTool_unknown_run sh name args Hh). eauto.
Qed.

(** X2. A name that is not advertised (and is not inherited from
    [Object.prototype]) has no handler: the request is answered by the
    error response [Unknown tool: <name>], the arguments are not looked
    at and no subprocess is started. *)
Theorem callTool_unknown_tool sh name args :
  name ∉ Object_prototype_names ->
  name ∉ listed_tool_names ->
  run sh (callTool name args) =
    ([EvLog LInfo (str "Handling CallTool request for: " ++ name) None;
      EvLog LError (str "Unknown tool requested: " ++ name) None],
     inr (error_response (str "Unknown tool: " ++ name))) /\
  spawned (fst (run sh (callTool name args))) = [].
Proof.
  intros _ Hname.
  assert (toolHandlers !! name = None) as Hnone.
  { unfold toolHandlers. apply not_elem_of_list_to_map_1.
    by rewrite <- listed_tool_names_perm. }
  by rewrite (callTool_unknown_run sh name args Hnone).
Qed.

Lemma handler_silent_or_once name handler args :
  toolHandlers !! name = Some handler ->
  silent (handler args) \/ spawns_once (handler args).
Proof.
  intros Hh%toolHandlers_lookup.
  pose proof handlers_spawn_as_expected as Hall.
  assert (exists S, spawns_as_expected name handler S) as [S HS].
  { clear -Hh Hall. revert Hh.
    induction Hall as [|[n h] [sn s] hs ss [_ HP] _ IH]; intros Hh.
    - by apply elem_of_nil in Hh.
    - apply elem_of_cons in Hh as [Heq|Hh].
      + injection Heq as -> ->. by exists s.
      + by apply IH. }
  specialize (HS args). unfold spawn_shape in HS.
  destruct (expected_spawns name (accepts S args)); auto.
Qed.

(** X3. A request for a name that is not inherited from
    [Object.prototype] starts at most one subprocess, whatever the
    arguments: the dispatcher starts none of its own, and no handler
    starts two. *)
Theorem callTool_at_most_one_subprocess sh name args :
  name ∉ Object_prototype_names ->
  (length (spawned (fst (run sh (callTool name args)))) <= 1)%nat.
Proof.
  intros _. destruct (toolHandlers !! name) as [handler|] eqn:Hh.
  - destruct (callTool_known sh name handler args Hh) as [-> _].
    destruct (handler_silent_or_once name handler args Hh) as [Hs|Ho].
    + unfold run. rewrite silent_run by done. simpl. lia.
    + unfold run. rewrite once_run by done. lia.
  - rewrite (callTool_unknown_run sh name args Hh). simpl. lia.
Qed.

End DispatcherRuns.

Lemma not_in_names (name : jsstring) (names : list jsstring) :
  bool_decide (name ∈ names) = false -> name ∉ names.
Proof. intros Hd Hin. by rewrite (bool_decide_eq_true_2 _ Hin) in Hd. Qed.

Lemma callTool_always_answers_witness :
  let sh := Reference.fails (str "Command failed") (str "not logged in") in
  let name := str "w3_account_ls" in
  exists answer,
    snd (run sh (@callTool Reference.runtime name (VObj []))) = inr answer /\
    match @toolHandlers Reference.runtime !! name with
    | Some handler =>
        match snd (run sh (handler (VObj []))) with
        | inr handled => answer = handled
        | inl error => answer = @error_response Reference.runtime (err_message error)
        end
    | None => answer = @error_response Reference.runtime (str "Unknown tool: " ++ name)
    end.
Proof.
  intros sh name.
  apply (@callTool_always_answers Reference.runtime sh name (VObj [])).
  apply not_in_names. vm_compute. reflexivity.
Defined.

Lemma callTool_unknown_tool_witness :
  let sh := Reference.prints [] in
  let name := str "w3_nope" in
  run sh (@callTool Reference.runtime name VUndefined) =
    ([EvLog LInfo (str "Handling CallTool request for: " ++ name) None;
      EvLog LError (str "Unknown tool requested: " ++ name) None],
     inr (@error_response Reference.runtime (str "Unknown tool: " ++ name))) /\
  spawned (fst (run sh (@callTool Reference.runtime name VUndefined))) = [].
Proof.
  intros sh name.
  apply (@callTool_unknown_tool Reference.runtime sh name VUndefined);
    apply not_in_names; vm_compute; reflexivity.
Defined.

Lemma callTool_at_most_one_subprocess_witness :
  (length (spawned (fst (run (Reference.prints (str "{}"))
                             (@callTool Reference.runtime (str "w3_ls") (VObj []))))) <= 1)%nat.
Proof.
  apply (@callTool_at_most_one_subprocess Reference.runtime).
  apply not_in_names. vm_compute. reflexivity.
Defined.

(** ** Subprocess failures *)

Section SubprocessFailures.
Context `{Runtime}.

(** X4. [runW3Command] starts exactly one subprocess, whose command line
    is [w3] followed by the command; when the subprocess succeeds it
    returns stdout and stderr as they are, untrimmed, and when it fails it
    throws the wrapped failure. *)
Theorem runW3Command_runs_once sh command :
  spawned (fst (run sh (runW3Command command))) = [str "w3 " ++ command] /\
  snd (run sh (runW3Command command)) =
    match sh 0%nat (str "w3 " ++ command) with
    | inr (stdout, stderr) => inr (stdout, stderr)
    | inl error => inl (new_Error (wrapped_failure command error))
    end.
Proof.
  unfold run. destruct (sh 0%nat (str "w3 " ++ command)) as [error|[stdout stderr]] eqn:Hsh.
  - by rewrite (run_runW3Command_fail sh 0 command error Hsh).
  - destruct (run_runW3Command_ok sh 0 command stdout stderr Hsh) as (t & Hrun & Hcmd).
    rewrite Hrun. cbn [fst snd]. by rewrite Hcmd.
Qed.

Lemma run_bind_runW3Command_fail {A} sh i command (f : jsstring * jsstring -> prog A) error :
  sh i (str "w3 " ++ command) = inl error ->
  run_from sh i (bind (runW3Command command) f) =
  ([EvLog LDebug (str "Executing: " ++ str "w3 " ++ command) None;
    EvExec (str "w3 " ++ command);
    EvLog LError (str "Error executing w3 command '" ++ command ++ str "':") (Some error)],
   inl (new_Error (wrapped_failure command error))).
Proof.
  intros Hsh. by rewrite run_from_bind, (run_runW3Command_fail sh i command error Hsh).
Qed.

Ltac failure_case :=
  intros args sh error Hsh;
  match goal with
  | |- silent ?call \/ _ => let h := head_of call in unfold h
  end;
  first
    [ left; solve [spawn_analysis]
    | destruct (safeParse _ args) as [issues|data];
      [ left; solve [spawn_analysis]
      | first
          [ left; solve [spawn_analysis]
          | right; repeat match goal with d : (_ * _)%type |- _ => destruct d end;
            cbv zeta; eexists; unfold run, mbind, prog_bind;
            rewrite (run_bind_runW3Command_fail sh 0%nat _ _ error) by apply Hsh;
            split; reflexivity ] ]
    | right; eexists; unfold run, mbind, prog_bind, log; cbn [bind run_from];
      rewrite (run_bind_runW3Command_fail sh 0%nat _ _ error) by apply Hsh;
      split; reflexivity ].

Lemma handlers_let_failure_through :
  Forall (fun entry => lets_failure_through (snd entry)) toolHandlers_entries.
Proof.
  unfold toolHandlers_entries.
  repeat (apply List.Forall_cons; [cbn [snd]; failure_case|]).
  apply List.Forall_nil.
Qed.

(** X5. No handler swallows the failure of its subprocess. When every
    subprocess fails, a call that starts one throws the wrapped failure of
    [runW3Command], and the caller of the tool gets an error response with
    that message: [Failed to execute 'w3 <command>': ...]. *)
Theorem subprocess_failure_reaches_caller sh name handler args error :
  toolHandlers !! name = Some handler ->
  (forall i c, sh i c = inl error) ->
  spawned (fst (run sh (handler args))) <> [] ->
  exists command,
    spawned (fst (run sh (handler args))) = [str "w3 " ++ command] /\
    snd (run sh (handler args)) = inl (new_Error (wrapped_failure command error)) /\
    snd (run sh (callTool name args)) =
      inr (error_response (wrapped_failure command error)).
Proof.
  intros Hh Hsh Hspawn.
  pose proof handlers_let_failure_through as Hall.
  rewrite List.Forall_forall in Hall.
  pose proof (proj1 (toolHandlers_lookup name handler) Hh) as Hin.
  apply list_elem_of_In in Hin.
  destruct (Hall _ Hin args sh error Hsh) as [Hsilent|(command & Hthrow & Hcmd)];
    cbn [snd] in *.
  - destruct Hspawn. unfold run. by apply silent_run.
  - exists command. split; [done|]. split; [done|].
    destruct (callTool_known sh name handler args Hh) as [_ ->]. by rewrite Hthrow.
Qed.

End SubprocessFailures.

Lemma subprocess_failure_reaches_caller_witness :
  let sh := Reference.fails (str "Command failed: w3 rm bafy1") (str "not found") in
  let args := VObj [(str "cid", VStr (str "bafy1"))] in
  let error := mkError ClsError (str "Command failed: w3 rm bafy1") (Some (str "not found")) None in
  exists command,
    spawned (fst (run sh (@handleW3Rm Reference.runtime args))) = [str "w3 " ++ command] /\
    snd (run sh (@handleW3Rm Reference.runtime args)) =
      inl (new_Error (wrapped_failure command error)) /\
    snd (run sh (@callTool Reference.runtime (str "w3_rm") args)) =
      inr (@error_response Reference.runtime (wrapped_failure command error)).
Proof.
  intros sh args error.
  apply (@subprocess_failure_reaches_caller Reference.runtime sh (str "w3_rm") handleW3Rm
           args error).
  - apply toolHandlers_lookup. unfold toolHandlers_entries.
    do 6 apply list_elem_of_further. apply list_elem_of_here.
  - reflexivity.
  - vm_compute. discriminate.
Defined.

(** ** More on [parseNdJson] *)

Section ParseNdJsonMore.
Context `{Runtime}.

Lemma try_catch_ret_inv {A} (p : prog A) h a :
  (forall e, exists l m d k, h e = Log l m d k) ->
  try_catch p h = Ret a -> p = Ret a.
Proof.
  intros Hh. destruct p as [a'|e|l m d k|c k]; simpl; try done.
  destruct (Hh e) as (l & m & d & k & ->). done.
Qed.

Lemma map_lines_ret_inv lines index records :
  map_lines lines index = Ret records ->
  Forall2 (fun line v => JSON_parse line = inr v) lines records.
Proof.
  revert index records. induction lines as [|line lines IH]; intros index records; simpl.
  - intros [= <-]. constructor.
  - destruct (JSON_parse line) as [e|v] eqn:Hline.
    + destruct (parse_line_fail line index e Hline) as (e' & _ & ->). done.
    + rewrite (parse_line_ok line index v Hline). simpl.
      destruct (map_lines lines (S index)) as [vs| | |] eqn:Hrest; simpl; try done.
      intros [= <-]. constructor; [done|]. by apply (IH (S index)).
Qed.

Lemma parseNdJson_of_lines ndjson records :
  Forall2 (fun line v => JSON_parse line = inr v) (ndjson_lines ndjson) records ->
  parseNdJson ndjson = Ret records.
Proof. intros Hall. unfold parseNdJson. by rewrite (map_lines_ok _ _ _ Hall). Qed.

(** X6. [parseNdJson] is all or nothing: it returns a list exactly when
    [JSON.parse] accepts every non-blank line of the trimmed input, and
    the list then holds the value of each line, in order. A single line
    that is rejected leaves no record of the others. *)
Theorem parseNdJson_all_or_nothing ndjson records :
  parseNdJson ndjson = Ret records <->
  Forall2 (fun line v => JSON_parse line = inr v) (ndjson_lines ndjson) records.
Proof.
  unfold parseNdJson. split.
  - intros Hret. apply (map_lines_ret_inv _ 0%nat).
    eapply try_catch_ret_inv; [|exact Hret].
    intros e. unfold mbind, prog_bind, log. simpl. eauto.
  - apply parseNdJson_of_lines.
Qed.

(** X7. White space and blank lines around the input change nothing to
    what [parseNdJson] gives: the same records are returned, or an error
    with the same message is thrown. *)
Theorem parseNdJson_ignores_padding ndjson padded_ndjson sh :
  padded padded_ndjson ndjson ->
  snd (run sh (parseNdJson padded_ndjson)) = snd (run sh (parseNdJson ndjson)).
Proof.
  intros Hp. unfold parseNdJson, ndjson_lines, run.
  rewrite (trim_padded _ _ Hp), !run_from_try_catch.
  destruct (run_from sh 0 (map_lines _ 0)) as [t [e|records]]; [|done].
  unfold mbind, prog_bind, log. by cbn.
Qed.

Lemma glue_last_nil pieces : pieces <> [] -> glue_last pieces [] = pieces.
Proof.
  induction pieces as [|l [|l' ls] IH]; intros Hne; [done| |].
  - simpl. by rewrite app_nil_r.
  - change (glue_last (l :: l' :: ls) []) with (l :: glue_last (l' :: ls) []).
    by rewrite IH.
Qed.

Lemma input_lines_app s1 s2 :
  input_lines (s1 ++ nl ++ s2) = input_lines s1 ++ input_lines s2.
Proof.
  unfold input_lines, nl. rewrite split_on_app. simpl.
  rewrite glue_last_nil by apply split_on_nonempty.
  apply List.filter_app.
Qed.

Lemma parseNdJson_from_input_lines ndjson records :
  ignores_outer_whitespace ->
  Forall2 (fun line v => JSON_parse line = inr v) (input_lines ndjson) records ->
  parseNdJson ndjson = Ret records.
Proof.
  intros Hws Hraw. apply parseNdJson_of_lines.
  pose proof (ndjson_lines_input ndjson) as Hpad.
  revert records Hraw. induction Hpad as [|raw line raws lines Hp _ IH]; intros records Hraw.
  - inversion Hraw. constructor.
  - inversion Hraw as [|? v ? vs Hv Hvs]; subst. constructor; eauto.
Qed.

(** X8. Two inputs put one after the other with a line feed between them
    give the records of the first followed by the records of the second. *)
Theorem parseNdJson_concat ndjson1 ndjson2 records1 records2 :
  ignores_outer_whitespace ->
  Forall2 (fun line v => JSON_parse line = inr v) (input_lines ndjson1) records1 ->
  Forall2 (fun line v => JSON_parse line = inr v) (input_lines ndjson2) records2 ->
  parseNdJson ndjson1 = Ret records1 /\
  parseNdJson ndjson2 = Ret records2 /\
  parseNdJson (ndjson1 ++ nl ++ ndjson2) = Ret (records1 ++ records2).
Proof.
  intros Hws H1 H2.
  split; [by apply parseNdJson_from_input_lines|].
  split; [by apply parseNdJson_from_input_lines|].
  apply parseNdJson_from_input_lines; [done|].
  rewrite input_lines_app. by apply Forall2_app.
Qed.

End ParseNdJsonMore.

Lemma parseNdJson_ignores_padding_witness :
  let ndjson := str "true" ++ nl ++ str "oops" in
  let padded_ndjson := nl ++ str "  " ++ ndjson ++ nl ++ nl in
  snd (run (Reference.prints []) (@parseNdJson Reference.runtime padded_ndjson)) =
  snd (run (Reference.prints []) (@parseNdJson Reference.runtime ndjson)).
Proof.
  intros ndjson padded_ndjson.
  apply (@parseNdJson_ignores_padding Reference.runtime).
  exists (nl ++ str "  "), (nl ++ nl). split; [|split; reflexivity].
  unfold padded_ndjson. by rewrite <- !app_assoc.
Defined.

Lemma parseNdJson_concat_witness :
  let ndjson1 := str "true" ++ nl ++ str " {} " in
  let ndjson2 := nl ++ str "17" ++ nl in
  @parseNdJson Reference.runtime ndjson1 = Ret [VBool true; VObj []] /\
  @parseNdJson Reference.runtime ndjson2 = Ret [VNum (Qmake 17 1)] /\
  @parseNdJson Reference.runtime (ndjson1 ++ nl ++ ndjson2)
  = Ret ([VBool true; VObj []] ++ [VNum (Qmake 17 1)]).
Proof.
  intros ndjson1 ndjson2.
  apply (@parseNdJson_concat Reference.runtime).
  - apply Reference_parse_ignores_outer_whitespace.
  - change (input_lines ndjson1) with [str "true"; str " {} "].
    repeat constructor.
  - change (input_lines ndjson2) with [str "17"].
    repeat constructor.
Defined.

(** ** More on the space listing *)

Lemma line_records_padded line line' :
  padded line line' -> line_records line = line_records line'.
Proof.
  intros Hp. unfold line_records, space_ls_step. by rewrite (trim_padded _ _ Hp).
Qed.

Lemma line_records_blank line : nonblank line = false -> line_records line = [].
Proof.
  unfold nonblank, line_records, space_ls_step. by intros ->.
Qed.

Lemma line_records_filter lines :
  flat_map line_records (List.filter nonblank lines) = flat_map line_records lines.
Proof.
  induction lines as [|line lines IH]; simpl; [done|].
  destruct (nonblank line) eqn:Hb; simpl; rewrite IH; [done|].
  by rewrite (line_records_blank _ Hb).
Qed.

Lemma line_records_Forall2_padded lines lines' :
  Forall2 padded lines lines' ->
  flat_map line_records lines = flat_map line_records lines'.
Proof.
  induction 1 as [|l l' ls ls' Hp _ IH]; simpl; [done|].
  by rewrite IH, (line_records_padded _ _ Hp).
Qed.

Lemma line_records_at_most_one line : (length (line_records line) <= 1)%nat.
Proof.
  unfold line_records, space_ls_step.
  destruct (negb (truthy_str (trim line))); [simpl; lia|].
  destruct (startsWith (str "*") (trim line));
    (destruct (split_ws _) as [|d tokens]; [simpl; lia|];
     destruct (truthy_str d && startsWith (str "did:key:") d); simpl; lia).
Qed.

Section SpaceLsLines.
Context `{Runtime}.

Lemma handleW3SpaceLs_raw_lines sh props stdout stderr :
  sh 0%nat (str "w3 space ls") = inr (stdout, stderr) ->
  snd (run sh (handleW3SpaceLs (VObj props))) =
    inr (reply [(str "spaces",
                 VArr (List.map space_value
                         (flat_map line_records (split_on 10 stdout))))]).
Proof.
  intros Hsh.
  rewrite (handleW3SpaceLs_run sh props stdout stderr Hsh).
  rewrite <- (line_records_filter (split_on 10 (trim stdout))).
  rewrite <- (line_records_filter (split_on 10 stdout)).
  by rewrite (line_records_Forall2_padded _ _ (lines_padded _ _ (trim_split stdout))).
Qed.

(** X9. The listing is read line by line: the handler answers the records
    of the lines of stdout, in order, at most one per line. Trimming the
    whole output first changes nothing: white space around the output and
    blank lines give no record. *)
Theorem handleW3SpaceLs_line_by_line sh props stdout stderr :
  sh 0%nat (str "w3 space ls") = inr (stdout, stderr) ->
  snd (run sh (handleW3SpaceLs (VObj props))) =
    inr (reply [(str "spaces",
                 VArr (List.map space_value
                         (flat_map line_records (split_on 10 stdout))))]) /\
  (length (flat_map line_records (split_on 10 stdout))
   <= length (List.filter nonblank (split_on 10 stdout)))%nat.
Proof.
  intros Hsh. split; [by apply handleW3SpaceLs_raw_lines with stderr|].
  rewrite <- line_records_filter.
  induction (List.filter nonblank (split_on 10 stdout)) as [|line lines IH]; simpl; [lia|].
  rewrite length_app. pose proof (line_records_at_most_one line). lia.
Qed.

End SpaceLsLines.

Lemma handleW3SpaceLs_line_by_line_witness :
  let stdout := nl ++ str "  did:key:abc home" ++ nl ++ nl ++ str "* did:key:def" ++ nl in
  snd (run (Reference.prints stdout) (@handleW3SpaceLs Reference.runtime (VObj []))) =
    inr (@reply Reference.runtime
           [(str "spaces",
             VArr (List.map space_value
                     (flat_map line_records (split_on 10 stdout))))]) /\
  (length (flat_map line_records (split_on 10 stdout))
   <= length (List.filter nonblank (split_on 10 stdout)))%nat.
Proof.
  intros stdout.
  apply (@handleW3SpaceLs_line_by_line Reference.runtime (Reference.prints stdout) [] stdout []).
  reflexivity.
Defined.

(** *** Tokens *)

Lemma is_token_cons t :
  is_token t = true ->
  exists c r, t = c :: r /\ is_whitespace c = false /\
              forallb (fun c => negb (is_whitespace c)) r = true.
Proof.
  unfold is_token. destruct t as [|c r]; [done|]. simpl.
  intros [Hc Hr]%andb_prop. exists c, r. by destruct (is_whitespace c).
Qed.

Lemma is_token_no_ws t :
  is_token t = true -> forallb (fun c => negb (is_whitespace c)) t = true.
Proof. unfold is_token. by intros [_ Ht]%andb_prop. Qed.

Lemma split_ws_from_start b c r :
  is_whitespace c = false -> split_ws_from b (c :: r) = split_ws_from false (c :: r).
Proof. intros Hc. simpl. by rewrite Hc. Qed.

Lemma split_ws_token t :
  forallb (fun c => negb (is_whitespace c)) t = true -> split_ws_from false t = [t].
Proof.
  induction t as [|c t IH]; simpl; [done|].
  intros [Hc Ht]%andb_prop. destruct (is_whitespace c); [done|]. by rewrite IH.
Qed.

Lemma split_ws_token_app t c rest :
  forallb (fun c => negb (is_whitespace c)) t = true -> is_whitespace c = true ->
  split_ws_from false (t ++ c :: rest) = t :: split_ws_from true rest.
Proof.
  intros Ht Hc. induction t as [|a t IH]; simpl.
  - by rewrite Hc.
  - simpl in Ht. apply andb_prop in Ht as [Ha Ht].
    destruct (is_whitespace a); [done|]. by rewrite IH.
Qed.

Lemma join_space_cons t t' ts :
  join (str " ") (t :: t' :: ts) = t ++ 32 :: join (str " ") (t' :: ts).
Proof. reflexivity. Qed.

Lemma join_head c r ts sep : join sep ((c :: r) :: ts) = c :: tl (join sep ((c :: r) :: ts)).
Proof. by destruct ts. Qed.

(** Splitting at white space what was joined with single spaces gives the
    tokens back. *)
Lemma split_ws_join t ts :
  Forall (fun t => is_token t = true) (t :: ts) ->
  split_ws (join (str " ") (t :: ts)) = t :: ts.
Proof.
  unfold split_ws. revert t. induction ts as [|t' ts IH]; intros t Hall.
  - apply split_ws_token, is_token_no_ws. by inversion Hall.
  - inversion Hall as [|? ? Ht Hrest]; subst.
    rewrite join_space_cons, split_ws_token_app; [|by apply is_token_no_ws|done].
    f_equal. inversion Hrest as [|? ? Ht' _]; subst.
    destruct (is_token_cons t' Ht') as (c & r & -> & Hc & _).
    rewrite join_head, (split_ws_from_start true c _ Hc), <- join_head.
    by apply IH.
Qed.

Lemma trimEnd_token x t : is_token t = true -> trimEnd (x ++ t) = x ++ t.
Proof.
  intros Ht. unfold trimEnd. rewrite rev_app_distr.
  assert (exists c r, rev t = c :: r /\ is_whitespace c = false) as (c & r & Hrev & Hc).
  { pose proof (is_token_no_ws t Ht) as Hws.
    destruct (is_token_cons t Ht) as (c0 & r0 & -> & _ & _).
    destruct (rev (c0 :: r0)) as [|c r] eqn:Hrev.
    - apply (f_equal (@length N)) in Hrev. rewrite length_rev in Hrev. done.
    - exists c, r. split; [done|].
      assert (c ∈ rev (c0 :: r0)) as Hin by (rewrite Hrev; left).
      apply list_elem_of_In, in_rev in Hin.
      rewrite forallb_forall in Hws. specialize (Hws c Hin).
      by destruct (is_whitespace c). }
  rewrite Hrev. cbn [app trimStart]. rewrite Hc.
  change (c :: r ++ rev x) with ((c :: r) ++ rev x).
  rewrite <- Hrev, <- rev_app_distr. apply rev_involutive.
Qed.

Lemma trimEnd_join x t ts :
  Forall (fun t => is_token t = true) (t :: ts) ->
  trimEnd (x ++ join (str " ") (t :: ts)) = x ++ join (str " ") (t :: ts).
Proof.
  revert x t. induction ts as [|t' ts IH]; intros x t Hall.
  - apply trimEnd_token. by inversion Hall.
  - inversion Hall; subst. rewrite join_space_cons.
    replace (x ++ t ++ 32 :: join (str " ") (t' :: ts))
      with ((x ++ t ++ [32]) ++ join (str " ") (t' :: ts))
      by (by rewrite <- !app_assoc).
    by apply IH.
Qed.

Lemma trim_join t ts :
  Forall (fun t => is_token t = true) (t :: ts) ->
  trim (join (str " ") (t :: ts)) = join (str " ") (t :: ts).
Proof.
  intros Hall. unfold trim.
  assert (trimStart (join (str " ") (t :: ts)) = join (str " ") (t :: ts)) as ->.
  { inversion Hall as [|? ? Ht _]; subst.
    destruct (is_token_cons t Ht) as (c & r & -> & Hc & _).
    rewrite join_head. simpl. by rewrite Hc. }
  apply (trimEnd_join [] t ts Hall).
Qed.

Lemma did_key_not_star did rest :
  startsWith (str "did:key:") did = true -> startsWith (str "*") (did ++ rest) = false.
Proof.
  destruct did as [|c did]; [done|].
  change (str "did:key:") with (100 :: str "id:key:"). change (str "*") with [42].
  cbn [startsWith app]. intros [Hc _]%andb_prop. apply N.eqb_eq in Hc as <-. done.
Qed.

Lemma join_first_app sep t ts : exists rest, join sep (t :: ts) = t ++ rest.
Proof. destruct ts; [exists []; by rewrite app_nil_r|by eexists]. Qed.

(** What a line of the listing gives back. *)
Lemma line_records_listing_line current did words :
  is_token did = true ->
  startsWith (str "did:key:") did = true ->
  Forall (fun t => is_token t = true) words ->
  line_records (listing_line current did words) = [listed_space current did words].
Proof.
  intros Hdid Hkey Hwords.
  assert (Forall (fun t => is_token t = true) (did :: words)) as Hall by by constructor.
  pose proof (trim_join did words Hall) as Htrim.
  pose proof (split_ws_join did words Hall) as Hsplit.
  destruct (join_first_app (str " ") did words) as [rest Hrest].
  assert (truthy_str (join (str " ") (did :: words)) = true) as Hne.
  { rewrite Hrest. destruct (is_token_cons did Hdid) as (c & r & -> & _). done. }
  assert (truthy_str did && startsWith (str "did:key:") did = true) as Hok.
  { rewrite Hkey. by destruct (is_token_cons did Hdid) as (c & r & -> & _). }
  unfold listing_line, listed_space, line_records, space_ls_step.
  destruct current.
  - assert (trim (str "* " ++ join (str " ") (did :: words))
            = str "* " ++ join (str " ") (did :: words)) as ->.
    { unfold trim. change (trimStart (str "* " ++ ?x)) with (str "* " ++ x).
      by apply trimEnd_join. }
    change (str "* " ++ ?x) with (42 :: 32 :: x).
    change (startsWith (str "*") (42 :: ?x)) with true.
    cbn [truthy_str negb substring_from skipn].
    rewrite (trim_padded (32 :: join (str " ") (did :: words)) (join (str " ") (did :: words)))
      by (exists [32], []; by rewrite app_nil_r).
    rewrite Htrim, Hsplit, Hok. by destruct words.
  - rewrite (trim_padded (str "  " ++ join (str " ") (did :: words))
               (join (str " ") (did :: words)))
      by (exists (str "  "), []; by rewrite app_nil_r).
    rewrite Htrim, Hne. cbn [negb].
    rewrite Hrest at 1. rewrite (did_key_not_star did rest Hkey).
    rewrite Hsplit, Hok. by destruct words.
Qed.

Lemma split_on_no_sep sep l r :
  forallb (fun c => negb (c =? sep)) l = true ->
  split_on sep (l ++ sep :: r) = l :: split_on sep r.
Proof.
  induction l as [|c l IH]; simpl.
  - by rewrite N.eqb_refl.
  - intros [Hc Hl]%andb_prop. destruct (c =? sep); [done|]. by rewrite IH.
Qed.

Lemma split_on_listing lines :
  Forall (fun l => forallb (fun c => negb (c =? 10)) l = true) lines ->
  split_on 10 (listing lines) = lines ++ [[]].
Proof.
  unfold listing. induction 1 as [|l ls Hl _ IH]; simpl; [done|].
  rewrite <- app_assoc. change (nl ++ ?x) with (10 :: x).
  by rewrite split_on_no_sep, IH.
Qed.

Lemma token_no_nl t :
  is_token t = true -> forallb (fun c => negb (c =? 10)) t = true.
Proof.
  intros Ht%is_token_no_ws. rewrite forallb_forall in *. intros c Hc.
  specialize (Ht c Hc). destruct (c =? 10) eqn:E; [|done].
  apply N.eqb_eq in E as ->. done.
Qed.

Lemma join_no_nl ts :
  Forall (fun t => is_token t = true) ts ->
  forallb (fun c => negb (c =? 10)) (join (str " ") ts) = true.
Proof.
  induction 1 as [|t ts Ht Hts IH]; [done|].
  destruct ts as [|t' ts]; [by apply token_no_nl|].
  rewrite join_space_cons, forallb_app, (token_no_nl t Ht). simpl. exact IH.
Qed.

Lemma listing_line_no_nl current did words :
  Forall (fun t => is_token t = true) (did :: words) ->
  forallb (fun c => negb (c =? 10)) (listing_line current did words) = true.
Proof.
  intros Hall. unfold listing_line.
  rewrite forallb_app, (join_no_nl _ Hall). by destruct current.
Qed.

Section SpaceLsRoundTrip.
Context `{Runtime}.

(** X10. The handler reads back the listing that [w3 space ls] prints:
    for DIDs that start with [did:key:] and names made of words, one line
    per space gives exactly these spaces, in order, the starred ones
    current; a space printed without a name has no name. *)
Theorem handleW3SpaceLs_round_trip sh props stderr
    (entries : list (bool * jsstring * list jsstring)) :
  Forall (fun '(current, did, words) =>
            is_token did = true /\ startsWith (str "did:key:") did = true /\
            Forall (fun t => is_token t = true) words) entries ->
  sh 0%nat (str "w3 space ls") =
    inr (listing (List.map (fun '(current, did, words) => listing_line current did words)
                           entries), stderr) ->
  snd (run sh (handleW3SpaceLs (VObj props))) =
    inr (reply [(str "spaces",
                 VArr (List.map space_value
                         (List.map (fun '(current, did, words) =>
                                      listed_space current did words) entries)))]).
Proof.
  intros Hentries Hsh.
  rewrite (handleW3SpaceLs_raw_lines sh props _ stderr Hsh). clear Hsh.
  assert (flat_map line_records
            (List.map (fun '(current, did, words) => listing_line current did words) entries)
          = List.map (fun '(current, did, words) => listed_space current did words) entries)
    as Hrecords.
  { induction Hentries as [|[[current did] words] entries (Hdid & Hkey & Hwords) _ IH];
      [done|].
    cbn [List.map flat_map]. by rewrite IH, line_records_listing_line. }
  rewrite split_on_listing.
  - rewrite flat_map_app, Hrecords. cbn [flat_map]. by rewrite !app_nil_r.
  - clear Hrecords.
    induction Hentries as [|[[current did] words] entries (Hdid & Hkey & Hwords) _ IH];
      cbn [List.map]; constructor; [|exact IH].
    apply listing_line_no_nl. by constructor.
Qed.

End SpaceLsRoundTrip.

Lemma handleW3SpaceLs_round_trip_witness :
  let entries :=
    [ (false, str "did:key:z6MkA", [str "family"; str "photos"]);
      (true, str "did:key:z6MkB", []) ] in
  let stdout :=
    listing (List.map (fun '(current, did, words) => listing_line current did words) entries) in
  snd (run (Reference.prints stdout) (@handleW3SpaceLs Reference.runtime (VObj []))) =
    inr (@reply Reference.runtime
           [(str "spaces",
             VArr (List.map space_value
                     (List.map (fun '(current, did, words) =>
                                  listed_space current did words) entries)))]).
Proof.
  intros entries stdout.
  apply (@handleW3SpaceLs_round_trip Reference.runtime (Reference.prints stdout) [] [] entries).
  - repeat constructor.
  - reflexivity.
Defined.

Example listing_example :
  listing [listing_line false (str "did:key:z6MkA") [str "family"; str "photos"];
           listing_line true (str "did:key:z6MkB") []]
  = str "  did:key:z6MkA family photos" ++ nl ++ str "* did:key:z6MkB" ++ nl.
Proof. reflexivity. Qed.

(** *** The tokens of a trimmed line *)

Lemma ends_tight_cons c r :
  ends_tight (c :: r) = match r with [] => negb (is_whitespace c) | _ => ends_tight r end.
Proof.
  unfold ends_tight. destruct r as [|c' r]; [done|].
  change (rev (c :: c' :: r)) with (rev (c' :: r) ++ [c]).
  destruct (rev (c' :: r)) as [|x xs] eqn:Hrev; [|done].
  apply (f_equal (@length N)) in Hrev. rewrite length_rev in Hrev. done.
Qed.

Lemma trimStart_tight s :
  match trimStart s with c :: _ => is_whitespace c = false | [] => True end.
Proof.
  induction s as [|c s IH]; simpl; [done|].
  by destruct (is_whitespace c) eqn:Hc.
Qed.

Lemma trim_tight s :
  match trim s with
  | c :: r => is_whitespace c = false /\ ends_tight (c :: r) = true
  | [] => True
  end.
Proof.
  destruct (trim s) as [|c r] eqn:Htrim; [done|]. unfold trim in Htrim. split.
  - pose proof (trimStart_tight s) as Hstart.
    destruct (trimEnd_split (trimStart s)) as (q & Hq & _).
    rewrite Htrim in Hq. rewrite Hq in Hstart. exact Hstart.
  - unfold ends_tight. rewrite <- Htrim. unfold trimEnd. rewrite rev_involutive.
    pose proof (trimStart_tight (rev (trimStart s))) as Hend.
    destruct (trimStart (rev (trimStart s))) as [|x xs] eqn:Hx.
    + unfold trimEnd in Htrim. by rewrite Hx in Htrim.
    + by rewrite Hend.
Qed.

(** The pieces of a string that does not end with white space: all
    tokens, when the string does not start with white space either or the
    cut of a leading run is already made. *)
Lemma split_ws_tokens s :
  ends_tight s = true ->
  Forall (fun t => is_token t = true) (split_ws_from true s) /\
  (match s with c :: _ => is_whitespace c = false | [] => False end ->
   Forall (fun t => is_token t = true) (split_ws_from false s)).
Proof.
  induction s as [|c r IH]; [done|].
  rewrite ends_tight_cons. intros Hend.
  destruct (is_whitespace c) eqn:Hc.
  - destruct r as [|c' r]; [done|]. destruct (IH Hend) as [IHtrue _].
    split; [|done]. simpl. rewrite Hc. exact IHtrue.
  - assert (Forall (fun t => is_token t = true) (split_ws_from false (c :: r))) as Hall.
    { simpl. rewrite Hc. destruct r as [|c' r].
      - simpl. repeat constructor. unfold is_token. simpl. by rewrite Hc.
      - destruct (IH Hend) as [IHtrue IHfalse].
        destruct (is_whitespace c') eqn:Hc'.
        + simpl. rewrite Hc'. simpl in IHtrue. rewrite Hc' in IHtrue.
          constructor; [|done]. unfold is_token. simpl. by rewrite Hc.
        + specialize (IHfalse eq_refl).
          destruct (split_ws_from false (c' :: r)) as [|l ls].
          { repeat constructor. unfold is_token. simpl. by rewrite Hc. }
          inversion IHfalse as [|? ? Hl Hls]; subst. constructor; [|done].
          unfold is_token in *. simpl. rewrite Hc. simpl.
          by apply andb_prop in Hl as [_ ->]. }
    split; [|done]. by rewrite (split_ws_from_start true c r Hc).
Qed.

Lemma split_ws_trim_tokens s :
  trim s <> [] -> Forall (fun t => is_token t = true) (split_ws (trim s)).
Proof.
  intros Hne. pose proof (trim_tight s) as Htight.
  destruct (trim s) as [|c r]; [done|]. destruct Htight as [Hc Hend].
  by apply (split_ws_tokens (c :: r) Hend).
Qed.

(** X11. Every record of the listing is made of tokens: the DID is one
    token, and the name, when there is one, is its words joined by single
    spaces (runs of white space in the line are not kept). Printed as a
    line of the listing, the record is read back as itself. *)
Theorem line_records_normalised line r :
  r ∈ line_records line ->
  is_token (did r) = true /\
  exists words,
    Forall (fun t => is_token t = true) words /\
    r = listed_space (isCurrent r) (did r) words /\
    line_records (listing_line (isCurrent r) (did r) words) = [r].
Proof.
  intros Hr.
  destruct (line_records_spec line r Hr) as (tokens & Hparts & Hkey & Hname & _).
  assert (Forall (fun t => is_token t = true) (did r :: tokens)) as Hall.
  { rewrite <- Hparts. unfold unstarred.
    destruct (startsWith (str "*") (trim line)) eqn:Hstar.
    - apply split_ws_trim_tokens. intros Hnil.
      unfold unstarred in Hparts. rewrite Hstar, Hnil in Hparts.
      injection Hparts as Hd _. rewrite <- Hd in Hkey. done.
    - apply split_ws_trim_tokens. intros Hnil.
      unfold unstarred in Hparts. rewrite Hstar, Hnil in Hparts.
      injection Hparts as Hd _. rewrite <- Hd in Hkey. done. }
  inversion Hall as [|? ? Hdid Hwords]; subst.
  split; [done|]. exists tokens. split; [done|].
  assert (r = listed_space (isCurrent r) (did r) tokens) as Heq.
  { destruct r as [d n c]. unfold listed_space. simpl in *. rewrite Hname.
    by destruct tokens. }
  split; [done|]. rewrite Heq at 3. by apply line_records_listing_line.
Qed.

Lemma line_records_normalised_witness :
  let line := str "   *  did:key:z6MkA   family" ++ [9; 9] ++ str "photos  " in
  let r := mkSpace (str "did:key:z6MkA") (Some (str "family photos")) true in
  is_token (did r) = true /\
  exists words,
    Forall (fun t => is_token t = true) words /\
    r = listed_space (isCurrent r) (did r) words /\
    line_records (listing_line (isCurrent r) (did r) words) = [r].
Proof.
  intros line r. apply (line_records_normalised line r).
  vm_compute. left.
Defined.

(** ** The command lines the handlers build *)

Section Commands.
Context `{Runtime}.

Lemma spawned_bind_runW3Command {A} sh i command (f : jsstring * jsstring -> prog A) :
  (forall a, silent (f a)) ->
  spawned (fst (run_from sh i (bind (runW3Command command) f))) = [str "w3 " ++ command].
Proof.
  intros Hf. rewrite run_from_bind.
  destruct (sh i (str "w3 " ++ command)) as [error|[stdout stderr]] eqn:Hsh.
  - by rewrite (run_runW3Command_fail sh i command error Hsh).
  - destruct (run_runW3Command_ok sh i command stdout stderr Hsh) as (t & -> & Hcmd).
    pose proof (silent_run (f (stdout, stderr)) sh (i + length (spawned t)) (Hf _)) as Hs.
    destruct (run_from sh (i + length (spawned t)) (f (stdout, stderr))) as [t' r].
    cbn [fst] in *. by rewrite spawned_app, Hcmd, Hs.
Qed.

(** X12. [w3 reset] is run only on explicit confirmation: the handler
    starts the subprocess exactly when the arguments are an object whose
    [confirmReset] is the string [yes-i-am-sure]; for anything else it
    throws the validation error and starts nothing. *)
Theorem handleW3Reset_needs_confirmation sh args :
  (exists props,
     args = VObj props /\
     get_prop (str "confirmReset") props = VStr (str "yes-i-am-sure") /\
     spawned (fst (run sh (handleW3Reset args))) = [str "w3 reset"]) \/
  ((forall props, args = VObj props ->
      get_prop (str "confirmReset") props <> VStr (str "yes-i-am-sure")) /\
   exists issues, handleW3Reset args = invalid_arguments (str "w3_reset") issues).
Proof.
  unfold handleW3Reset, safeParse, Schemas.W3ResetArgsSchema, z_object.
  destruct args as [| | | | | |props];
    try (right; split; [intros ? [=]|eexists; reflexivity]).
  unfold prop, z_literal.
  destruct (get_prop (str "confirmReset") props) as [| | | |s| |] eqn:Hconfirm;
    try (right; split; [intros ? [= <-]; by rewrite Hconfirm|eexists; reflexivity]).
  destruct (decide (s = str "yes-i-am-sure")) as [->|Hne].
  - left. exists props. split; [done|]. split; [done|].
    unfold run, mbind, prog_bind. apply spawned_bind_runW3Command.
    intros [stdout stderr]. constructor.
  - right. split; [|eexists; reflexivity].
    intros ? [= <-]. rewrite Hconfirm. congruence.
Qed.

(** X13. The space a command selects is always a [did:key:] DID: whenever
    [handleW3SpaceUse] or [handleW3SpaceProvision] starts a subprocess,
    the DID on its command line is the [spaceDid] of the arguments and
    starts with [did:key:]. *)
Theorem space_commands_take_did_key sh props :
  (spawned (fst (run sh (handleW3SpaceUse (VObj props)))) <> [] ->
   exists spaceDid,
     get_prop (str "spaceDid") props = VStr spaceDid /\
     startsWith (str "did:key:") spaceDid = true /\
     spawned (fst (run sh (handleW3SpaceUse (VObj props))))
     = [str "w3 space use " ++ spaceDid]) /\
  (spawned (fst (run sh (handleW3SpaceProvision (VObj props)))) <> [] ->
   exists customerId spaceDid,
     get_prop (str "customerId") props = VStr customerId /\
     get_prop (str "spaceDid") props = VStr spaceDid /\
     startsWith (str "did:key:") spaceDid = true /\
     spawned (fst (run sh (handleW3SpaceProvision (VObj props))))
     = [str "w3 space provision " ++ customerId ++ str " --space " ++ spaceDid]).
Proof.
  split.
  - unfold handleW3SpaceUse, safeParse, Schemas.W3SpaceUseArgsSchema, z_object, prop,
      z_string_startsWith.
    destruct (get_prop (str "spaceDid") props) as [| | | |s| |]; try done.
    destruct (startsWith (str "did:key:") s) eqn:Hs; [|done].
    intros _. exists s. split; [done|]. split; [done|].
    unfold run, mbind, prog_bind.
    rewrite spawned_bind_runW3Command; [done|]. intros [stdout stderr]. constructor.
  - unfold handleW3SpaceProvision, safeParse, Schemas.W3SpaceProvisionArgsSchema, z_object,
      both, prop, z_string, z_string_startsWith.
    destruct (get_prop (str "customerId") props) as [| | | |c| |];
      destruct (get_prop (str "spaceDid") props) as [| | | |s| |]; try done;
      try (destruct (startsWith (str "did:key:") s) eqn:Hs; done).
    destruct (startsWith (str "did:key:") s) eqn:Hs; [|done].
    intros _. exists c, s. do 3 (split; [done|]).
    unfold run, mbind, prog_bind.
    rewrite spawned_bind_runW3Command; [done|]. intros [stdout stderr]. constructor.
Qed.

End Commands.

Lemma space_commands_take_did_key_witness :
  let sh := Reference.prints [] in
  let props := [(str "spaceDid", VStr (str "did:key:z6MkA"))] in
  exists spaceDid,
    get_prop (str "spaceDid") props = VStr spaceDid /\
    startsWith (str "did:key:") spaceDid = true /\
    spawned (fst (run sh (@handleW3SpaceUse Reference.runtime (VObj props))))
    = [str "w3 space use " ++ spaceDid].
Proof.
  intros sh props.
  destruct (@space_commands_take_did_key Reference.runtime sh props) as [Huse _].
  apply Huse. vm_compute. discriminate.
Defined.

Section Listings.
Context `{Runtime}.

Lemma run_bind_runW3Command_ok {A} sh i command (f : jsstring * jsstring -> prog A)
    stdout stderr :
  sh i (str "w3 " ++ command) = inr (stdout, stderr) ->
  snd (run_from sh i (bind (runW3Command command) f)) =
  snd (run_from sh (i + 1) (f (stdout, stderr))).
Proof.
  intros Hsh. rewrite run_from_bind.
  destruct (run_runW3Command_ok sh i command stdout stderr Hsh) as (t & -> & Hcmd).
  rewrite Hcmd. cbn [length].
  by destruct (run_from sh (i + 1) (f (stdout, stderr))).
Qed.

Lemma parseNdJson_throws ndjson :
  Exists malformed (ndjson_lines ndjson) ->
  exists e l m d l' m' d',
    malformed_with e (ndjson_lines ndjson) /\
    parseNdJson ndjson =
    Log l m d (Log l' m' d' (Throw (new_Error (batch_message (err_message e))))).
Proof.
  intros Hex.
  destruct (first_malformed _ Hex) as (good & bad & rest & Hlines & Hgood & [e He]).
  destruct (map_lines_fail good bad rest 0 e Hgood He) as (e' & Hm & Hmap).
  exists e. do 6 eexists. split.
  - exists good, bad, rest. eauto.
  - unfold parseNdJson. rewrite Hlines, Hmap. unfold mbind, prog_bind, log. cbn.
    by rewrite Hm.
Qed.

(** X14. [w3_ls] asks for JSON unless told otherwise. When [json] is
    absent or true the command is [w3 ls --json] and the output is read
    as NDJSON, all or nothing: the uploads are the values of the non-blank
    lines, or the call throws the error of [parseNdJson] for the first
    line that [JSON.parse] rejects. *)
Theorem handleW3Ls_json_by_default sh props stdout stderr :
  get_prop (str "json") props = VUndefined \/ get_prop (str "json") props = VBool true ->
  sh 0%nat (str "w3 ls --json") = inr (stdout, stderr) ->
  spawned (fst (run sh (handleW3Ls (VObj props)))) = [str "w3 ls --json"] /\
  (forall uploads,
     Forall2 (fun line v => JSON_parse line = inr v) (ndjson_lines stdout) uploads ->
     snd (run sh (handleW3Ls (VObj props))) = inr (reply [(str "uploads", VArr uploads)])) /\
  (Exists malformed (ndjson_lines stdout) ->
   exists e,
     malformed_with e (ndjson_lines stdout) /\
     snd (run sh (handleW3Ls (VObj props))) =
       inl (new_Error (batch_message (err_message e)))).
Proof.
  intros Hjson Hsh.
  assert (safeParse Schemas.W3LsArgsSchema (VObj props) = inr true) as Hparse.
  { unfold safeParse, Schemas.W3LsArgsSchema, z_object, prop, z_boolean_optional_default.
    by destruct Hjson as [-> | ->]. }
  unfold handleW3Ls, run, mbind, prog_bind. rewrite Hparse. split; [|split].
  - rewrite spawned_bind_runW3Command; [done|].
    intros [out err]. apply silent_bind; [apply parseNdJson_silent|]. intros. constructor.
  - intros uploads Hall.
    rewrite (run_bind_runW3Command_ok sh 0 _ _ stdout stderr Hsh).
    unfold parseNdJson. by rewrite (map_lines_ok _ _ _ Hall).
  - intros Hex. destruct (parseNdJson_throws stdout Hex)
      as (e & l & m & d & l' & m' & d' & Hbad & Hthrow).
    exists e. split; [done|].
    rewrite (run_bind_runW3Command_ok sh 0 _ _ stdout stderr Hsh). by rewrite Hthrow.
Qed.

(** X15. With [json] false, [w3_ls] runs [w3 ls] and answers the output
    as text, trimmed; the text is not parsed, so no output makes the call
    fail. *)
Theorem handleW3Ls_text sh props stdout stderr :
  get_prop (str "json") props = VBool false ->
  sh 0%nat (str "w3 ls") = inr (stdout, stderr) ->
  spawned (fst (run sh (handleW3Ls (VObj props)))) = [str "w3 ls"] /\
  snd (run sh (handleW3Ls (VObj props))) = inr (reply [(str "output", VStr (trim stdout))]).
Proof.
  intros Hjson Hsh.
  assert (safeParse Schemas.W3LsArgsSchema (VObj props) = inr false) as Hparse.
  { unfold safeParse, Schemas.W3LsArgsSchema, z_object, prop, z_boolean_optional_default.
    by rewrite Hjson. }
  unfold handleW3Ls, run, mbind, prog_bind. rewrite Hparse. split.
  - rewrite spawned_bind_runW3Command; [done|]. intros [out err]. constructor.
  - by rewrite (run_bind_runW3Command_ok sh 0 _ _ stdout stderr Hsh).
Qed.

End Listings.

Lemma handleW3Ls_json_by_default_witness :
  let stdout := str "{}" ++ nl ++ str "true" ++ nl in
  let sh := Reference.prints stdout in
  spawned (fst (run sh (@handleW3Ls Reference.runtime (VObj [])))) = [str "w3 ls --json"] /\
  (forall uploads,
     Forall2 (fun line v => @JSON_parse Reference.runtime line = inr v)
             (ndjson_lines stdout) uploads ->
     snd (run sh (@handleW3Ls Reference.runtime (VObj []))) =
       inr (@reply Reference.runtime [(str "uploads", VArr uploads)])) /\
  (Exists (@malformed Reference.runtime) (ndjson_lines stdout) ->
   exists e,
     @malformed_with Reference.runtime e (ndjson_lines stdout) /\
     snd (run sh (@handleW3Ls Reference.runtime (VObj []))) =
       inl (new_Error (batch_message (err_message e)))).
Proof.
  intros stdout sh.
  apply (@handleW3Ls_json_by_default Reference.runtime sh [] stdout []).
  - by left.
  - reflexivity.
Defined.

Lemma handleW3Ls_text_witness :
  let stdout := str "bafy1" ++ nl ++ str "bafy2" ++ nl in
  let sh := Reference.prints stdout in
  let props := [(str "json", VBool false)] in
  spawned (fst (run sh (@handleW3Ls Reference.runtime (VObj props)))) = [str "w3 ls"] /\
  snd (run sh (@handleW3Ls Reference.runtime (VObj props))) =
    inr (@reply Reference.runtime [(str "output", VStr (trim stdout))]).
Proof.
  intros stdout sh props.
  apply (@handleW3Ls_text Reference.runtime sh props stdout []); reflexivity.
Defined.

(** ** Uploads *)

Lemma parse_items_strings path i items l :
  parse_items z_string path i items = inr l -> items = List.map VStr l.
Proof.
  revert i l. induction items as [|v items IH]; intros i l; simpl.
  - by intros [= <-].
  - destruct v; simpl; try (destruct (parse_items z_string path (S i) items); done).
    destruct (parse_items z_string path (S i) items) as [e|l'] eqn:Hrest; [done|].
    intros [= <-]. simpl. by rewrite (IH _ _ Hrest).
Qed.

Section Uploads.
Context `{Runtime}.

(** X16. [w3 up] is never run without a path. Whenever [handleW3Up]
    starts a subprocess, [paths] is a non-empty array of strings, and the
    command line is [w3 up] followed by every path between double quotes,
    in order, then [--no-wrap] and [--hidden] when asked for. *)
Theorem handleW3Up_command_line sh props :
  spawned (fst (run sh (handleW3Up (VObj props)))) <> [] ->
  exists paths (noWrap hidden : bool),
    paths <> [] /\
    get_prop (str "paths") props = VArr (List.map VStr paths) /\
    (noWrap = true <-> get_prop (str "noWrap") props = VBool true) /\
    (hidden = true <-> get_prop (str "hidden") props = VBool true) /\
    spawned (fst (run sh (handleW3Up (VObj props)))) =
      [str "w3 up " ++ join (str " ") (List.map (fun p => dq ++ p ++ dq) paths) ++
       (if noWrap then str " --no-wrap" else []) ++
       (if hidden then str " --hidden" else [])].
Proof.
  unfold handleW3Up.
  destruct (safeParse Schemas.W3UpArgsSchema (VObj props)) as [issues|[[paths noWrap] hidden]]
    eqn:Hparse; [done|].
  intros _. exists paths, noWrap, hidden.
  unfold safeParse, Schemas.W3UpArgsSchema, z_object, both, prop in Hparse.
  destruct (z_array_min z_string 1 _ (get_prop (str "paths") props)) as [e1|paths'] eqn:Hpaths;
    destruct (z_boolean_optional_default false _ (get_prop (str "noWrap") props))
      as [e2|noWrap'] eqn:HnoWrap;
    destruct (z_boolean_optional_default false _ (get_prop (str "hidden") props))
      as [e3|hidden'] eqn:Hhidden;
    try done.
  injection Hparse as -> -> ->.
  unfold z_array_min in Hpaths.
  destruct (get_prop (str "paths") props) as [| | | | |items|]; try done.
  destruct (parse_items z_string _ 0 items) as [e|l] eqn:Hitems;
    destruct (length items <? 1)%nat eqn:Hlen; try done.
  injection Hpaths as ->. apply parse_items_strings in Hitems as ->.
  split. { destruct paths; [done|done]. }
  split; [done|].
  assert (forall key b,
            z_boolean_optional_default false [PKey key] (get_prop key props) = inr b ->
            b = true <-> get_prop key props = VBool true) as Hflag.
  { intros key b. unfold z_boolean_optional_default, z_optional, z_boolean.
    destruct (get_prop key props) as [| |b'| | | |]; simpl; try done.
    - intros [= <-]. split; done.
    - intros [= <-]. split; [by intros ->|by intros [= ->]]. }
  split; [by apply Hflag|]. split; [by apply Hflag|].
  cbv zeta. unfold run, mbind, prog_bind.
  rewrite spawned_bind_runW3Command by (intros [out err]; constructor).
  destruct noWrap, hidden; by rewrite <- ?app_assoc, ?app_nil_r.
Qed.

End Uploads.

Lemma handleW3Up_command_line_witness :
  let sh := Reference.prints [] in
  let props := [(str "paths", VArr [VStr (str "/a b"); VStr (str "/c")]);
                (str "hidden", VBool true)] in
  exists paths (noWrap hidden : bool),
    paths <> [] /\
    get_prop (str "paths") props = VArr (List.map VStr paths) /\
    (noWrap = true <-> get_prop (str "noWrap") props = VBool true) /\
    (hidden = true <-> get_prop (str "hidden") props = VBool true) /\
    spawned (fst (run sh (@handleW3Up Reference.runtime (VObj props)))) =
      [str "w3 up " ++ join (str " ") (List.map (fun p => dq ++ p ++ dq) paths) ++
       (if noWrap then str " --no-wrap" else []) ++
       (if hidden then str " --hidden" else [])].
Proof.
  intros sh props.
  apply (@handleW3Up_command_line Reference.runtime sh props).
  vm_compute. discriminate.
Defined.

(** ** Output that cannot be parsed *)

Lemma settles_bind {A B} (p : prog A) (f : A -> prog B) :
  settles p -> (forall a, settles (f a)) -> settles (bind p f).
Proof. induction 1; intros Hf; simpl; [auto|constructor; auto..]. Qed.

Lemma settles_try_catch {A} (p : prog A) h :
  silent p -> (forall e, settles (h e)) -> settles (try_catch p h).
Proof. induction 1; intros Hh; simpl; [constructor|auto|constructor; auto]. Qed.

Lemma settles_run {A} (p : prog A) sh i :
  settles p -> (forall i c, exists out, sh i c = inr out) ->
  exists a, snd (run_from sh i p) = inr a.
Proof.
  intros Hp Hsh. revert i. induction Hp as [a|l m d k _ IH|c k _ IH]; intros i; simpl.
  - by exists a.
  - destruct (IH i) as [a Ha]. exists a. by destruct (run_from sh i k).
  - destruct (Hsh i c) as [out Hout]. rewrite Hout.
    destruct (IH out (S i)) as [a Ha]. exists a.
    by destruct (run_from sh (S i) (k (inr out))).
Qed.

Section Settles.
Context `{Runtime}.

Lemma runW3Command_settles command : settles (runW3Command command).
Proof.
  unfold runW3Command. constructor. constructor. intros [stdout stderr].
  unfold mbind, prog_bind. destruct (truthy_str stderr); repeat constructor.
Qed.

Lemma settles_after_log {A} l m (f : unit -> prog A) :
  settles (f tt) -> settles (bind (log l m) f).
Proof. intros Hf. simpl. by constructor. Qed.

End Settles.

Ltac settle_step :=
  match goal with
  | |- forall _, _ => intro
  | |- settles (Ret _) => constructor
  | |- settles (Log _ _ _ _) => constructor
  | |- settles (runW3Command _) => apply runW3Command_settles
  | |- settles (mbind _ (log _ _)) => apply settles_after_log
  | |- settles (mbind _ _) => apply settles_bind
  | |- settles (bind _ _) => apply settles_bind
  | |- settles (try_catch _ _) => apply settles_try_catch; [solve [spawn_analysis]|]
  | |- settles (let '(_, _) := ?x in _) => destruct x
  | |- settles (match ?x with _ => _ end) => destruct x
  end.

Section ToleratedOutput.
Context `{Runtime}.

Ltac tolerate_case :=
  intros Hname args Hacc;
  first
    [ exfalso; apply Hname; unfold throwing_tools;
      solve [repeat first [apply list_elem_of_here|apply list_elem_of_further]]
    | unfold accepts in Hacc; cbn [Schemas.the_schema Schemas.out_type] in Hacc;
      match goal with |- settles ?call => let h := head_of call in unfold h end;
      first [ destruct (safeParse _ args) as [issues|data]; [discriminate Hacc|]
            | idtac ];
      cbv zeta; repeat settle_step ].

Lemma handlers_tolerate_output :
  Forall2 (fun h s => toolName (fst s) = fst h /\ tolerates_output (fst h) (snd h) (snd s))
          toolHandlers_entries Schemas.declared.
Proof.
  unfold toolHandlers_entries, Schemas.declared.
  repeat (apply List.Forall2_cons; [split; [reflexivity|cbn [fst snd]; tolerate_case]|]).
  apply List.Forall2_nil.
Qed.

(** X17. For every tool outside [throwing_tools] (twenty-five of them),
    a call with accepted arguments whose subprocess succeeds always gets a
    response, whatever the subprocess printed: output that cannot be
    parsed is answered as raw text, not as an error. *)
Theorem output_never_fails_the_call sh name handler sname S args :
  toolHandlers !! name = Some handler ->
  (sname, S) ∈ listed_schemas -> toolName sname = name ->
  name ∉ throwing_tools ->
  accepts S args = true ->
  (forall i c, exists out, sh i c = inr out) ->
  exists answer,
    snd (run sh (handler args)) = inr answer /\
    snd (run sh (callTool name args)) = inr answer.
Proof.
  intros Hh Hs%listed_schemas_declared Hname Hout Hacc Hsh.
  pose proof (proj1 (toolHandlers_lookup name handler) Hh) as Hin.
  pose proof (aligned_rows toolName tolerates_output _ _ handlers_tolerate_output
                toolHandlers_NoDup name handler sname S Hin Hs Hname Hout args Hacc)
    as Hsettles.
  destruct (settles_run (handler args) sh 0 Hsettles Hsh) as [answer Hanswer].
  exists answer. split; [exact Hanswer|].
  destruct (callTool_known sh name handler args Hh) as [_ ->].
  unfold run. by rewrite Hanswer.
Qed.

End ToleratedOutput.

Lemma output_never_fails_the_call_witness :
  let sh := Reference.prints (str "not json at all") in
  let args := VObj [(str "json", VBool true)] in
  exists answer,
    snd (run sh (@handleW3KeyCreate Reference.runtime args)) = inr answer /\
    snd (run sh (@callTool Reference.runtime (str "w3_key_create") args)) = inr answer.
Proof.
  intros sh args.
  apply (@output_never_fails_the_call Reference.runtime sh (str "w3_key_create")
           handleW3KeyCreate (str "W3KeyCreateArgsSchema")
           (Schemas.AnySchema Schemas.W3KeyCreateArgsSchema) args).
  - apply toolHandlers_lookup. unfold toolHandlers_entries.
    do 15 apply list_elem_of_further. apply list_elem_of_here.
  - apply listed_schemas_declared. unfold Schemas.declared.
    do 15 apply list_elem_of_further. apply list_elem_of_here.
  - reflexivity.
  - apply not_in_names. vm_compute. reflexivity.
  - reflexivity.
  - intros i c. eexists. reflexivity.
Defined.

Section StrictOutput.
Context `{Runtime}.

(** X18. [w3_plan_get] keeps the first record of the output. For every
    accepted argument bag ([accountId] absent or a string; an empty one
    counts as absent) the command is [w3 plan get], with
    [--account <accountId>] when given, and the plan is the value of the
    first non-blank line of its output, or the empty object when there is
    none. When a line cannot be parsed the call throws, and the message
    of the error carries the raw output. *)
Theorem handleW3PlanGet_first_record sh props accountId stdout stderr :
  get_prop (str "accountId") props = optional_string accountId ->
  let command :=
    str "plan get" ++
    match accountId with Some (c :: r) => str " --account " ++ c :: r | _ => [] end in
  sh 0%nat (str "w3 " ++ command) = inr (stdout, stderr) ->
  (forall records,
     Forall2 (fun line v => JSON_parse line = inr v) (ndjson_lines stdout) records ->
     snd (run sh (handleW3PlanGet (VObj props))) =
       inr (reply [(str "message", VStr (str "Plan information retrieved."));
                   (str "planData",
                    match records with first :: _ => first | [] => VObj [] end)])) /\
  (Exists malformed (ndjson_lines stdout) ->
   snd (run sh (handleW3PlanGet (VObj props))) =
     inl (new_Error (str "Failed to parse JSON output for w3_plan_get. Raw output: " ++ stdout))).
Proof.
  intros Hid command Hsh.
  assert (safeParse Schemas.W3PlanGetArgsSchema (VObj props) = inr accountId) as Hparse.
  { unfold safeParse, Schemas.W3PlanGetArgsSchema, z_object, prop, z_optional, z_string.
    rewrite Hid. by destruct accountId. }
  unfold handleW3PlanGet, run, mbind, prog_bind. rewrite Hparse. cbv zeta.
  assert ((if truthy_opt accountId
           then str "plan get" ++ str " --account " ++ show_opt accountId
           else str "plan get") = command) as ->.
  { unfold command. destruct accountId as [[|c r]|]; by rewrite ?app_nil_r. }
  rewrite (run_bind_runW3Command_ok sh 0 _ _ stdout stderr Hsh). split.
  - intros records Hall. unfold parseNdJson. by rewrite (map_lines_ok _ _ _ Hall).
  - intros Hex. destruct (parseNdJson_throws stdout Hex)
      as (e & l & m & d & l' & m' & d' & _ & ->). done.
Qed.

(** X19. [w3_space_info] reads its JSON output twice over. For every
    accepted argument bag with [json] absent or true ([spaceDid] absent or
    a [did:key:] DID) the command is [w3 space info], with
    [--space <spaceDid>] when given, and [--json]. The output is first
    read as NDJSON, and the first record is the answer; when that fails
    the whole output is given to [JSON.parse], whose value is then the
    answer (a pretty-printed object, spread over several lines); when that
    fails too the call throws with the raw output. *)
Theorem handleW3SpaceInfo_fallback sh props spaceDid stdout stderr :
  get_prop (str "spaceDid") props = optional_string spaceDid ->
  match spaceDid with
  | Some d => startsWith (str "did:key:") d = true
  | None => True
  end ->
  get_prop (str "json") props = VUndefined \/ get_prop (str "json") props = VBool true ->
  let command :=
    str "space info" ++
    match spaceDid with Some d => str " --space " ++ d | None => [] end ++
    str " --json" in
  sh 0%nat (str "w3 " ++ command) = inr (stdout, stderr) ->
  (forall records,
     Forall2 (fun line v => JSON_parse line = inr v) (ndjson_lines stdout) records ->
     snd (run sh (handleW3SpaceInfo (VObj props))) =
       inr (reply [(str "spaceInfo",
                    match records with first :: _ => first | [] => VObj [] end)])) /\
  (Exists malformed (ndjson_lines stdout) ->
   snd (run sh (handleW3SpaceInfo (VObj props))) =
     match JSON_parse stdout with
     | inr whole => inr (reply [(str "spaceInfo", whole)])
     | inl _ =>
         inl (new_Error
                (str "Failed to parse JSON output for w3_space_info. Raw output: " ++ stdout))
     end).
Proof.
  intros Hdid Hkey Hjson command Hsh.
  assert (safeParse Schemas.W3SpaceInfoArgsSchema (VObj props) = inr (spaceDid, true))
    as Hparse.
  { unfold safeParse, Schemas.W3SpaceInfoArgsSchema, z_object, both, prop,
      z_boolean_optional_default, z_optional, z_string_startsWith.
    rewrite Hdid. destruct spaceDid as [d|]; cbn [optional_string].
    - rewrite Hkey. by destruct Hjson as [-> | ->].
    - by destruct Hjson as [-> | ->]. }
  unfold handleW3SpaceInfo, run, mbind, prog_bind. rewrite Hparse. cbv zeta.
  assert ((if truthy_opt spaceDid
           then str "space info" ++ str " --space " ++ show_opt spaceDid
           else str "space info") ++ str " --json" = command) as ->.
  { unfold command. destruct spaceDid as [[|c r]|]; [done| |done].
    cbn [truthy_opt truthy_str show_opt]. by rewrite <- !app_assoc. }
  rewrite (run_bind_runW3Command_ok sh 0 _ _ stdout stderr Hsh). split.
  - intros records Hall. unfold parseNdJson. by rewrite (map_lines_ok _ _ _ Hall).
  - intros Hex. destruct (parseNdJson_throws stdout Hex)
      as (e & l & m & d & l' & m' & d' & _ & ->).
    cbn. by destruct (JSON_parse stdout).
Qed.

End StrictOutput.

Lemma handleW3PlanGet_first_record_witness :
  let stdout := str "{}" ++ nl ++ str "17" ++ nl in
  let sh := Reference.prints stdout in
  let props := [(str "accountId", VStr (str "did:mailto:example.org:ann"))] in
  (forall records,
     Forall2 (fun line v => @JSON_parse Reference.runtime line = inr v)
             (ndjson_lines stdout) records ->
     snd (run sh (@handleW3PlanGet Reference.runtime (VObj props))) =
       inr (@reply Reference.runtime
              [(str "message", VStr (str "Plan information retrieved."));
               (str "planData",
                match records with first :: _ => first | [] => VObj [] end)])) /\
  (Exists (@malformed Reference.runtime) (ndjson_lines stdout) ->
   snd (run sh (@handleW3PlanGet Reference.runtime (VObj props))) =
     inl (new_Error (str "Failed to parse JSON output for w3_plan_get. Raw output: " ++ stdout))).
Proof.
  intros stdout sh props.
  apply (@handleW3PlanGet_first_record Reference.runtime sh props
           (Some (str "did:mailto:example.org:ann")) stdout []); reflexivity.
Defined.

Lemma handleW3SpaceInfo_fallback_witness :
  let stdout := str "oops" ++ nl in
  let sh := Reference.prints stdout in
  let props := [(str "spaceDid", VStr (str "did:key:z6Mk"))] in
  (forall records,
     Forall2 (fun line v => @JSON_parse Reference.runtime line = inr v)
             (ndjson_lines stdout) records ->
     snd (run sh (@handleW3SpaceInfo Reference.runtime (VObj props))) =
       inr (@reply Reference.runtime
              [(str "spaceInfo",
                match records with first :: _ => first | [] => VObj [] end)])) /\
  (Exists (@malformed Reference.runtime) (ndjson_lines stdout) ->
   snd (run sh (@handleW3SpaceInfo Reference.runtime (VObj props))) =
     match @JSON_parse Reference.runtime stdout with
     | inr whole => inr (@reply Reference.runtime [(str "spaceInfo", whole)])
     | inl _ =>
         inl (new_Error
                (str "Failed to parse JSON output for w3_space_info. Raw output: " ++ stdout))
     end).
Proof.
  intros stdout sh props.
  apply (@handleW3SpaceInfo_fallback Reference.runtime sh props (Some (str "did:key:z6Mk"))
           stdout []);
    [reflexivity|reflexivity|by left|reflexivity].
Defined.

(** ** The [Stored] line of [w3 can blob add] *)

Lemma span_ws_app ws rest :
  all_ws ws = true ->
  match rest with c :: _ => is_whitespace c = false | [] => True end ->
  span_ws (ws ++ rest) = (ws, rest).
Proof.
  intros Hws Hrest. induction ws as [|c ws IH]; simpl.
  - destruct rest as [|c r]; [done|]. simpl. by rewrite Hrest.
  - simpl in Hws. apply andb_prop in Hws as [Hc Hws]. by rewrite Hc, IH.
Qed.

Lemma span_non_ws_app t rest :
  forallb (fun c => negb (is_whitespace c)) t = true ->
  match rest with c :: _ => is_whitespace c = true | [] => True end ->
  span_non_ws (t ++ rest) = (t, rest).
Proof.
  intros Ht Hrest. induction t as [|c t IH]; simpl.
  - destruct rest as [|c r]; [done|]. simpl. by rewrite Hrest.
  - simpl in Ht. apply andb_prop in Ht as [Hc Ht].
    destruct (is_whitespace c); [done|]. by rewrite IH.
Qed.

Lemma startsWith_within p a b :
  (length p <= length a)%nat -> startsWith p (a ++ b) = startsWith p a.
Proof.
  revert a. induction p as [|x p IH]; intros a Hlen; [by destruct a|].
  destruct a as [|y a]; simpl in *; [lia|]. rewrite IH; [done|lia].
Qed.

(** The group ends before the last closing parenthesis of its run. *)
Lemma before_last_paren_end x tail :
  forallb (fun c => negb (c =? 41)) tail = true ->
  before_last_paren (x ++ 41 :: tail) = Some x.
Proof.
  intros Htail.
  assert (before_last_paren tail = None) as Hnone.
  { induction tail as [|c tail IH]; [done|]. simpl in *.
    apply andb_prop in Htail as [Hc Htail]. rewrite (IH Htail).
    by destruct (c =? 41). }
  induction x as [|c x IH]; simpl; [by rewrite Hnone|]. by rewrite IH.
Qed.

(** Where no occurrence of [Stored] starts, no match starts. *)
Lemma match_stored_skip prefix x :
  includes (str "Stored") (prefix ++ str "Store") = false ->
  match_stored (prefix ++ str "Stored" ++ x) = match_stored (str "Stored" ++ x).
Proof.
  induction prefix as [|c prefix IH]; [done|]. intros Hinc.
  cbn [app includes] in Hinc. apply orb_false_elim in Hinc as [Hhere Hlater].
  cbn [app match_stored].
  assert (match_stored_here (c :: prefix ++ str "Stored" ++ x) = None) as ->.
  { unfold match_stored_here.
    assert (startsWith (str "Stored") (c :: prefix ++ str "Stored" ++ x) = false) as ->;
      [|done].
    change (c :: prefix ++ str "Stored" ++ x)
      with ((c :: prefix) ++ str "Store" ++ 100 :: x).
    rewrite app_assoc, startsWith_within; [exact Hhere|].
    rewrite length_app. simpl. lia. }
  by apply IH.
Qed.

(** The two groups of a [Stored] line. *)
Lemma match_stored_line prefix ws1 multihash ws2 cid tail rest :
  includes (str "Stored") (prefix ++ str "Store") = false ->
  all_ws ws1 = true -> ws1 <> [] -> all_ws ws2 = true -> ws2 <> [] ->
  is_token multihash = true -> is_token cid = true ->
  forallb (fun c => negb (is_whitespace c)) tail = true ->
  forallb (fun c => negb (c =? 41)) tail = true ->
  match rest with c :: _ => is_whitespace c = true | [] => True end ->
  match_stored (prefix ++ str "Stored" ++ ws1 ++ multihash ++ ws2 ++
                40 :: cid ++ 41 :: tail ++ rest) = Some (multihash, cid).
Proof.
  intros Hp Hws1 Hne1 Hws2 Hne2 Hmh Hcid Htail Hparen Hrest.
  rewrite (match_stored_skip _ _ Hp).
  pose proof (is_token_no_ws _ Hmh) as Hmh'.
  pose proof (is_token_no_ws _ Hcid) as Hcid'.
  destruct (is_token_cons multihash Hmh) as (m & mr & -> & Hmc & _).
  destruct (is_token_cons cid Hcid) as (c & cr & -> & _ & _).
  destruct ws1 as [|w1 ws1]; [done|]. destruct ws2 as [|w2 ws2]; [done|].
  assert (is_whitespace w2 = true) as Hw2.
  { simpl in Hws2. by apply andb_prop in Hws2 as [-> _]. }
  assert (match_stored_here (str "Stored" ++ (w1 :: ws1) ++ (m :: mr) ++ (w2 :: ws2) ++
                             40 :: (c :: cr) ++ 41 :: tail ++ rest)
          = Some (m :: mr, c :: cr)) as Hhere.
  { unfold match_stored_here.
    change (startsWith (str "Stored") (str "Stored" ++ ?x)) with true.
    change (skipn 6 (str "Stored" ++ ?x)) with x. cbv beta iota.
    rewrite (span_ws_app (w1 :: ws1) _ Hws1) by exact Hmc. cbv beta iota zeta.
    rewrite (span_non_ws_app (m :: mr) _ Hmh') by exact Hw2. cbv beta iota zeta.
    rewrite (span_ws_app (w2 :: ws2) _ Hws2) by done. cbv beta iota zeta.
    replace ((c :: cr) ++ 41 :: tail ++ rest) with (((c :: cr) ++ 41 :: tail) ++ rest)
      by (by rewrite <- app_assoc).
    rewrite (span_non_ws_app ((c :: cr) ++ 41 :: tail) rest);
      [|by rewrite forallb_app, Hcid'; cbn [forallb]; rewrite Htail|done].
    cbn [fst]. by rewrite (before_last_paren_end (c :: cr) tail Hparen). }
  change (str "Stored" ++ ?x) with (83 :: str "tored" ++ x) in *.
  cbn [match_stored]. by rewrite Hhere.
Qed.

Section BlobAdd.
Context `{Runtime}.

(** X20. [w3_can_blob_add] finds the multihash and the CID after the
    first [Stored] of the output. For every output where the first
    occurrence of [Stored] is followed by white space, the multihash,
    white space and a parenthesis that holds the CID, the handler answers
    both, with the trimmed output. Any text may come before, and after
    the closing parenthesis any text without a closing parenthesis up to
    the next white space (the CID runs to the last one). *)
Theorem handleW3CanBlobAdd_reads_stored sh props path stderr
    prefix ws1 multihash ws2 cid tail rest :
  get_prop (str "path") props = VStr path ->
  includes (str "Stored") (prefix ++ str "Store") = false ->
  all_ws ws1 = true -> ws1 <> [] -> all_ws ws2 = true -> ws2 <> [] ->
  is_token multihash = true -> is_token cid = true ->
  forallb (fun c => negb (is_whitespace c)) tail = true ->
  forallb (fun c => negb (c =? 41)) tail = true ->
  match rest with c :: _ => is_whitespace c = true | [] => True end ->
  let stdout := prefix ++ str "Stored" ++ ws1 ++ multihash ++ ws2 ++
                40 :: cid ++ 41 :: tail ++ rest in
  sh 0%nat (str "w3 can blob add " ++ dq ++ path ++ dq) = inr (stdout, stderr) ->
  snd (run sh (handleW3CanBlobAdd (VObj props))) =
    inr (reply [(str "message", VStr (str "Blob added successfully."));
                (str "multihash", VStr multihash);
                (str "cid", VStr cid);
                (str "output", VStr (trim stdout))]).
Proof.
  intros Hpath Hp Hws1 Hne1 Hws2 Hne2 Hmh Hcid Htail Hparen Hrest stdout Hsh.
  assert (safeParse Schemas.W3CanBlobAddArgsSchema (VObj props) = inr path) as Hparse.
  { unfold safeParse, Schemas.W3CanBlobAddArgsSchema, z_object, prop. by rewrite Hpath. }
  unfold handleW3CanBlobAdd, run, mbind, prog_bind. rewrite Hparse.
  rewrite (run_bind_runW3Command_ok sh 0 _ _ stdout stderr Hsh).
  unfold stdout at 1. by rewrite match_stored_line.
Qed.

End BlobAdd.

Lemma handleW3CanBlobAdd_reads_stored_witness :
  let stdout := (str "Size 12B" ++ nl) ++ str "Stored" ++ str " " ++ str "zQmHash" ++
                str "  " ++ 40 :: str "bafkreiabc" ++ 41 :: str "," ++ str " done" ++ nl in
  let sh := Reference.prints stdout in
  let props := [(str "path", VStr (str "/tmp/blob.bin"))] in
  snd (run sh (@handleW3CanBlobAdd Reference.runtime (VObj props))) =
    inr (@reply Reference.runtime
           [(str "message", VStr (str "Blob added successfully."));
            (str "multihash", VStr (str "zQmHash"));
            (str "cid", VStr (str "bafkreiabc"));
            (str "output", VStr (trim stdout))]).
Proof.
  intros stdout sh props.
  apply (@handleW3CanBlobAdd_reads_stored Reference.runtime sh props (str "/tmp/blob.bin") []
           (str "Size 12B" ++ nl) (str " ") (str "zQmHash") (str "  ") (str "bafkreiabc")
           (str ",") (str " done" ++ nl));
    try reflexivity; try discriminate.
Defined.

(** ** The derivation of tool names *)









(** Words that spell the suffix early: the first occurrence is dropped,
    not the last. *)
Example toolName_early_suffix :
  toolName (str "ArgsSchemaFooArgsSchema") = str "foo_args_schema".
Proof. reflexivity. Qed.

(** ** Links and delegations *)

Lemma parse_items_of_strings path i l :
  parse_items z_string path i (List.map VStr l) = inr l.
Proof.
  revert i. induction l as [|x l IH]; intros i; simpl; [done|]. by rewrite IH.
Qed.

Lemma fold_left_append {A} (f : A -> jsstring) l (start : jsstring) :
  fold_left (fun acc x => acc ++ f x) l start = start ++ concat (List.map f l).
Proof.
  revert start. induction l as [|x l IH]; intros start; simpl.
  - by rewrite app_nil_r.
  - by rewrite IH, <- app_assoc.
Qed.

Section Links.
Context `{Runtime}.

(** X22. [handleW3Open] only builds a link: nothing is run and nothing is
    logged. The link is the gateway address followed by the CID and, after
    a slash, the path; an empty path is treated as no path, and no slash
    is added. *)
Theorem handleW3Open_link sh props cid path :
  get_prop (str "cid") props = VStr cid ->
  get_prop (str "path") props = optional_string path ->
  let url := str "https://w3s.link/ipfs/" ++ cid ++
             match path with Some (c :: r) => str "/" ++ c :: r | _ => [] end in
  run sh (handleW3Open (VObj props)) =
    ([], inr (reply [(str "message",
                      VStr (str "To view the content, open this URL in your browser: " ++ url));
                     (str "url", VStr url)])).
Proof.
  intros Hcid Hpath.
  assert (safeParse Schemas.W3OpenArgsSchema (VObj props) = inr (cid, path)) as Hparse.
  { unfold safeParse, Schemas.W3OpenArgsSchema, z_object, both, prop, z_optional, z_string.
    rewrite Hcid, Hpath. by destruct path. }
  unfold handleW3Open. rewrite Hparse.
  destruct path as [[|c r]|]; cbn [truthy_opt truthy_str show_opt]; cbv zeta;
    by rewrite ?app_nil_r.
Qed.

(** X23. A delegation asked for with neither [output] nor [base64] is
    still created: the command line names the audience and one [--can]
    per capability, in order, and nothing else, and the answer speaks of
    the output file [undefined]. *)
Theorem handleW3DelegationCreate_no_destination sh props audienceDid capabilities
    stdout stderr :
  get_prop (str "audienceDid") props = VStr audienceDid ->
  get_prop (str "capabilities") props = VArr (List.map VStr capabilities) ->
  capabilities <> [] ->
  get_prop (str "name") props = VUndefined ->
  get_prop (str "type") props = VUndefined ->
  get_prop (str "output") props = VUndefined ->
  get_prop (str "base64") props = VUndefined ->
  let command :=
    str "delegation create " ++ audienceDid ++
    concat (List.map (fun cap => str " --can '" ++ cap ++ str "'") capabilities) in
  sh 0%nat (str "w3 " ++ command) = inr (stdout, stderr) ->
  spawned (fst (run sh (handleW3DelegationCreate (VObj props)))) = [str "w3 " ++ command] /\
  snd (run sh (handleW3DelegationCreate (VObj props))) =
    inr (reply [(str "message",
                 VStr (str "Delegation created successfully (output file: undefined)."));
                (str "output", VStr (trim stdout))]).
Proof.
  intros Haud Hcaps Hne Hname Htype Hout Hb64 command Hsh.
  assert (safeParse Schemas.W3DelegationCreateArgsSchema (VObj props)
          = inr (audienceDid, capabilities, None, None, None, false)) as Hparse.
  { unfold safeParse, Schemas.W3DelegationCreateArgsSchema, z_object, both, prop,
      z_array_min, z_boolean_optional_default, z_optional.
    rewrite Haud, Hcaps, Hname, Htype, Hout, Hb64, parse_items_of_strings.
    destruct capabilities; [done|]. reflexivity. }
  unfold handleW3DelegationCreate, run, mbind, prog_bind. rewrite Hparse.
  cbn [truthy_opt show_opt]. cbv zeta. rewrite fold_left_append, <- app_assoc.
  fold command. split.
  - rewrite spawned_bind_runW3Command; [done|]. intros [out err]. constructor.
  - by rewrite (run_bind_runW3Command_ok sh 0 _ _ stdout stderr Hsh).
Qed.

End Links.

Lemma handleW3Open_link_witness :
  let sh := Reference.prints [] in
  let props := [(str "cid", VStr (str "bafy")); (str "path", VStr [])] in
  let url := str "https://w3s.link/ipfs/" ++ str "bafy" ++ [] in
  run sh (@handleW3Open Reference.runtime (VObj props)) =
    ([], inr (@reply Reference.runtime [(str "message",
                      VStr (str "To view the content, open this URL in your browser: " ++ url));
                     (str "url", VStr url)])).
Proof.
  intros sh props url.
  apply (@handleW3Open_link Reference.runtime sh props (str "bafy") (Some [])); reflexivity.
Defined.

Lemma handleW3DelegationCreate_no_destination_witness :
  let stdout := str "bafydelegation" ++ nl in
  let sh := Reference.prints stdout in
  let props := [(str "audienceDid", VStr (str "did:key:z6Mk"));
                (str "capabilities", VArr [VStr (str "space/*"); VStr (str "upload/add")])] in
  spawned (fst (run sh (@handleW3DelegationCreate Reference.runtime (VObj props)))) =
    [str "w3 delegation create did:key:z6Mk --can 'space/*' --can 'upload/add'"] /\
  snd (run sh (@handleW3DelegationCreate Reference.runtime (VObj props))) =
    inr (@reply Reference.runtime [(str "message",
                 VStr (str "Delegation created successfully (output file: undefined)."));
                (str "output", VStr (str "bafydelegation"))]).
Proof.
  intros stdout sh props.
  apply (@handleW3DelegationCreate_no_destination Reference.runtime sh props
           (str "did:key:z6Mk") [str "space/*"; str "upload/add"] stdout []);
    try reflexivity.
  discriminate.
Defined.
